(** * Waypoint / magnetometer fusion pipeline: a shallow embedding

    The development follows the Python sources script by script:

    - [Py]               the handful of Python built-ins the scripts rely on
                         (exceptions, true division, [str.strip], [str.split],
                         [float], truthiness, JSON values);
    - [Model]            the waypoint record the scripts share;
    - [GeomagHeatmap]    [way_point_test/geomag_heatmap.py];
    - [GeomagHeatmapDoubles]  its interpolator in double precision;
    - [WaypointHeatmap]  [10.4waypoint_heatmap.py];
    - [GeomagHeatmapAffine]  the affine part of [geomag_heatmap.py], which
                         shares its helpers with [10.4waypoint_heatmap.py];
    - [GeomagHeatPoints] [make_geomag_heat_points] of [geomag_heatmap.py];
    - [Geomagnetic]      [geomagnetic.py];
    - [GeoJson]          the GeoJSON transform of [10.4waypoint_heatmap.py];
    - [Scenarios]        the concrete inputs the statements are evaluated on.

    Timestamps are Python [int]s, modelled by [Z].  Coordinates, field
    magnitudes and weights are Python/NumPy floats; they are modelled by exact
    rationals [Q], so every statement below that mentions a [Q] is about
    exact arithmetic on finite values: it says nothing about rounding, and
    the values [nan] and [inf] that [float] also accepts are outside it.
    Rationals are compared with [==] ([Qeq]).

    Where rounding decides a property, the code is modelled a second time in
    the arithmetic it runs in: [GeomagHeatmapDoubles] is the interpolator of
    [geomag_heatmap.py] over IEEE binary64 numbers (the kernel's primitive
    floats, round to nearest even, which is the arithmetic of a Python
    [float]). *)

From Stdlib Require Import String Ascii.
From Stdlib Require Import ZArith QArith Qround Qminmax List Bool.
From Stdlib Require Import Lia Lqa Sorting.Sorted Permutation.
From Stdlib Require Floats.PrimFloat.
Import ListNotations.

(* ====================================================================== *)
(** * Part I: definitions                                                  *)
(* ====================================================================== *)

Module Py.

(** Python exceptions that the modelled code can raise. *)
Inductive pyexn : Type :=
| ValueError | TypeError | AttributeError | KeyError | IndexError
| ZeroDivisionError.

(** A computation either returns a value or raises. *)
Inductive result (A : Type) : Type :=
| Ok (a : A)
| Raise (e : pyexn).

Arguments Ok {A} a.
Arguments Raise {A} e.

Definition bind {A B : Type} (c : result A) (k : A -> result B) : result B :=
  match c with
  | Ok a => k a
  | Raise e => Raise e
  end.

Notation "x <- c ;; k" := (bind c (fun x => k))
  (at level 61, c at next level, right associativity).

(** [try: body / except Exception: handler]. *)
Definition try_except {A : Type} (body : result A) (handler : A) : A :=
  match body with
  | Ok a => a
  | Raise _ => handler
  end.

(** [a / b] on two Python ints: a float, or [ZeroDivisionError]. *)
Definition truediv (a b : Z) : result Q :=
  if (b =? 0)%Z then Raise ZeroDivisionError
  else Ok (inject_Z a / inject_Z b).

(** Python list indexing [l[i]]: negative indices count from the end, and an
    index out of range raises [IndexError]. *)
Definition list_item {A : Type} (l : list A) (i : Z) : result A :=
  let n := Z.of_nat (length l) in
  let i' := if (i <? 0)%Z then (i + n)%Z else i in
  if (i' <? 0)%Z then Raise IndexError
  else match nth_error l (Z.to_nat i') with
       | Some a => Ok a
       | None => Raise IndexError
       end.

(** *** Strings *)

(** [str.isspace] on the ASCII range: TAB, LF, VT, FF, CR, FS, GS, RS, US
    and the blank. *)
Definition is_space (c : ascii) : bool :=
  let n := nat_of_ascii c in
  (((9 <=? n) && (n <=? 13)) || ((28 <=? n) && (n <=? 32)))%nat%bool.

Fixpoint lstrip_chars (l : list ascii) : list ascii :=
  match l with
  | [] => []
  | c :: r => if is_space c then lstrip_chars r else l
  end.

(** [s.strip()] *)
Definition strip (s : string) : string :=
  string_of_list_ascii
    (rev (lstrip_chars (rev (lstrip_chars (list_ascii_of_string s))))).

(** [s.startswith(p)] *)
Definition startswith (p s : string) : bool := String.prefix p s.

(** [s.replace(",", " ")] *)
Fixpoint replace_commas (s : string) : string :=
  match s with
  | EmptyString => EmptyString
  | String c r =>
      String (if Ascii.eqb c ","%char then " "%char else c) (replace_commas r)
  end.

Definition flush (cur : list ascii) : list string :=
  match cur with
  | [] => []
  | _ :: _ => [string_of_list_ascii (rev cur)]
  end.

(** [s.split()]: maximal runs of non-blank characters; [cur] accumulates the
    current run in reverse. *)
Fixpoint split_ws (cur : list ascii) (s : string) : list string :=
  match s with
  | EmptyString => flush cur
  | String c r =>
      if is_space c then flush cur ++ split_ws [] r
      else split_ws (c :: cur) r
  end.

Definition split (s : string) : list string := split_ws [] s.

(** [s.split(",")]: every comma starts a new (possibly empty) field. *)
Fixpoint split_comma (cur : list ascii) (s : string) : list string :=
  match s with
  | EmptyString => [string_of_list_ascii (rev cur)]
  | String c r =>
      if Ascii.eqb c ","%char
      then string_of_list_ascii (rev cur) :: split_comma [] r
      else split_comma (c :: cur) r
  end.

(** [needle in haystack] for two strings. *)
Definition is_substring (needle haystack : string) : bool :=
  match String.index 0 needle haystack with
  | Some _ => true
  | None => false
  end.

(** [int(s)] / [float(s)] on a token: the parse is a parameter, a failed
    parse is a [ValueError]. *)
Definition conv {A : Type} (parse : string -> option A) (s : string) : result A :=
  match parse s with
  | Some a => Ok a
  | None => Raise ValueError
  end.

(** *** Sorting *)

(** [list.sort(key=...)] is stable: an element goes in front of the first
    element whose key is not smaller. *)
Fixpoint insert_by {A : Type} (key : A -> Z) (a : A) (l : list A) : list A :=
  match l with
  | [] => [a]
  | b :: r => if (key a <=? key b)%Z then a :: l else b :: insert_by key a r
  end.

(** Ascending order of the keys. *)
Definition key_le {A : Type} (key : A -> Z) (a b : A) : Prop :=
  (key a <= key b)%Z.

Definition sort_by {A : Type} (key : A -> Z) (l : list A) : list A :=
  fold_right (insert_by key) [] l.

Fixpoint insert_q (a : Q) (l : list Q) : list Q :=
  match l with
  | [] => [a]
  | b :: r => if Qle_bool a b then a :: l else b :: insert_q a r
  end.

(** [sorted(values)] on floats. *)
Definition sorted_q (l : list Q) : list Q := fold_right insert_q [] l.

(** *** JSON values, as [json.load] returns them *)

Inductive json : Type :=
| JNull
| JBool (b : bool)
| JNum (q : Q)
| JStr (s : string)
| JList (l : list json)
| JObj (kv : list (string * json)).

(** A [dict] is kept as the list of its members in file order.  When a key
    occurs twice [json.load] keeps the later value. *)
Fixpoint dict_get (k : string) (kv : list (string * json)) : option json :=
  match kv with
  | [] => None
  | (k', v) :: r =>
      match dict_get k r with
      | Some v' => Some v'
      | None => if String.eqb k k' then Some v else None
      end
  end.

Definition has_key (k : string) (kv : list (string * json)) : bool :=
  match dict_get k kv with Some _ => true | None => false end.

(** The keys of a [dict], each once, in order of first appearance. *)
Fixpoint dict_keys (seen : list string) (kv : list (string * json)) : list string :=
  match kv with
  | [] => []
  | (k, _) :: r =>
      if existsb (String.eqb k) seen then dict_keys seen r
      else k :: dict_keys (k :: seen) r
  end.

(** Truth value of an object ([v or default], [if v]). *)
Definition truthy (v : json) : bool :=
  match v with
  | JNull => false
  | JBool b => b
  | JNum q => negb (Qeq_bool q 0)
  | JStr s => negb (String.eqb s EmptyString)
  | JList l => match l with [] => false | _ :: _ => true end
  | JObj kv => match kv with [] => false | _ :: _ => true end
  end.

(** [v or d] *)
Definition or_else (v d : json) : json := if truthy v then v else d.

Definition is_dict (v : json) : bool :=
  match v with JObj _ => true | _ => false end.

Definition is_list (v : json) : bool :=
  match v with JList _ => true | _ => false end.

(** [o.get(k)] / [o.get(k, d)]: only a [dict] has the method. *)
Definition py_get (o : json) (k : string) (d : json) : result json :=
  match o with
  | JObj kv => Ok (match dict_get k kv with Some v => v | None => d end)
  | _ => Raise AttributeError
  end.

(** [k in o] for a string [k]. *)
Definition py_in (k : string) (o : json) : result bool :=
  match o with
  | JObj kv => Ok (has_key k kv)
  | JList l =>
      Ok (existsb (fun v => match v with JStr s => String.eqb k s | _ => false end) l)
  | JStr s => Ok (is_substring k s)
  | _ => Raise TypeError
  end.

(** [o[k]] for a string [k]. *)
Definition py_getitem (o : json) (k : string) : result json :=
  match o with
  | JObj kv =>
      match dict_get k kv with Some v => Ok v | None => Raise KeyError end
  | _ => Raise TypeError
  end.

(** [o[i]] for a natural number [i]. *)
Definition py_index (o : json) (i : nat) : result json :=
  match o with
  | JList l =>
      match nth_error l i with Some v => Ok v | None => Raise IndexError end
  | JStr s =>
      match String.get i s with
      | Some c => Ok (JStr (String c EmptyString))
      | None => Raise IndexError
      end
  | JObj _ => Raise KeyError
  | _ => Raise TypeError
  end.

Fixpoint chars_of (s : string) : list json :=
  match s with
  | EmptyString => []
  | String c r => JStr (String c EmptyString) :: chars_of r
  end.

(** The items an unpacking assignment [a, b = o] iterates over. *)
Definition py_iter (o : json) : result (list json) :=
  match o with
  | JList l => Ok l
  | JStr s => Ok (chars_of s)
  | JObj kv => Ok (map JStr (dict_keys [] kv))
  | _ => Raise TypeError
  end.

(** [a, b = o] *)
Definition unpack2 (o : json) : result (json * json) :=
  l <- py_iter o ;;
  match l with
  | [a; b] => Ok (a, b)
  | _ => Raise ValueError
  end.

(** [a, b, c = o] *)
Definition unpack3 (o : json) : result (json * json * json) :=
  l <- py_iter o ;;
  match l with
  | [a; b; c] => Ok (a, b, c)
  | _ => Raise ValueError
  end.

(** [float(v)]: numbers and booleans convert, a string is parsed, anything
    else is a [TypeError]. *)
Definition py_float_of (parse : string -> option Q) (v : json) : result Q :=
  match v with
  | JNum q => Ok q
  | JBool b => Ok (if b then 1 else 0)
  | JStr s => conv parse s
  | _ => Raise TypeError
  end.

(** *** A reference reading of decimal literals

    [int] and [float] are parameters of the parsers below.  The two functions
    here read plain decimal literals ([-12], [3.25]) and serve as a concrete
    instance when a statement is evaluated on a concrete file. *)

Definition digit_of (c : ascii) : option Z :=
  let n := nat_of_ascii c in
  if ((48 <=? n) && (n <=? 57))%nat%bool then Some (Z.of_nat (n - 48)) else None.

Fixpoint digits_val (acc : Z) (s : string) : option Z :=
  match s with
  | EmptyString => Some acc
  | String c r =>
      match digit_of c with
      | Some d => digits_val (10 * acc + d)%Z r
      | None => None
      end
  end.

Definition nat_literal (s : string) : option Z :=
  match s with
  | EmptyString => None
  | String _ _ => digits_val 0 s
  end.

Definition dec_int (s : string) : option Z :=
  match s with
  | String "-"%char r => option_map Z.opp (nat_literal r)
  | _ => nat_literal s
  end.

(** Splits [s] at its first ["."]. *)
Fixpoint split_dot (cur : list ascii) (s : string) : string * option string :=
  match s with
  | EmptyString => (string_of_list_ascii (rev cur), None)
  | String c r =>
      if Ascii.eqb c "."%char then (string_of_list_ascii (rev cur), Some r)
      else split_dot (c :: cur) r
  end.

Definition unsigned_dec (s : string) : option Q :=
  match split_dot [] s with
  | (ip, None) => option_map inject_Z (nat_literal ip)
  | (ip, Some fp) =>
      match nat_literal ip, nat_literal fp with
      | Some i, Some f =>
          Some (inject_Z i + inject_Z f / inject_Z (10 ^ Z.of_nat (String.length fp)))
      | _, _ => None
      end
  end.

Definition dec_float (s : string) : option Q :=
  match s with
  | String "-"%char r => option_map Qopp (unsigned_dec r)
  | _ => unsigned_dec s
  end.

End Py.

Import Py.

(* ---------------------------------------------------------------------- *)
(** ** The waypoint record shared by the scripts                           *)
(* ---------------------------------------------------------------------- *)

Module Model.

(** A waypoint is the Python tuple [(t, x, y)], or a row of the data frame
    with the columns [ts], [x], [y]. *)
Definition waypoint : Type := (Z * Q * Q)%type.

Definition wp_t (w : waypoint) : Z := fst (fst w).
Definition wp_x (w : waypoint) : Q := snd (fst w).
Definition wp_y (w : waypoint) : Q := snd w.

(** The filler of [nth] on waypoint lists; the indices used below are always
    in range. *)
Definition wp0 : waypoint := (0%Z, 0, 0).

End Model.

Import Model.

(* ---------------------------------------------------------------------- *)
(** ** way_point_test/geomag_heatmap.py                                    *)
(* ---------------------------------------------------------------------- *)

Module GeomagHeatmap.

(** [mode: "linear" | "hold" | "skip"] *)
Inductive interp_mode : Type := Linear | Hold | Skip.

Definition is_hold (m : interp_mode) : bool :=
  match m with Hold => true | _ => false end.

(** [while j+1 < n and ts[j+1] <= t: j += 1].  Every iteration increases
    [j], and [j] never exceeds [n - 1], so [n] iterations of fuel are
    enough (see [advance_exit]). *)
Fixpoint advance_fuel (fuel : nat) (ts : list Z) (j : nat) (t : Z) : nat :=
  match fuel with
  | O => j
  | S fuel' =>
      if ((j + 1 <? length ts)%nat && (nth (j + 1) ts 0 <=? t)%Z)%bool
      then advance_fuel fuel' ts (j + 1) t
      else j
  end.

Definition advance (ts : list Z) (j : nat) (t : Z) : nat :=
  advance_fuel (length ts) ts j t.

(** The three trailing branches of the loop body
    ([if t < ts[0] ... elif t > ts[-1] ... else ...]). *)
Definition tail_branches (mode : interp_mode) (ts : list Z) (xs ys : list Q)
    (j : nat) (t : Z) : option (Q * Q) :=
  if (t <? nth 0 ts 0)%Z then
    if is_hold mode then Some (nth 0 xs 0, nth 0 ys 0) else None
  else if (last ts 0%Z <? t)%Z then
    if is_hold mode then Some (last xs 0, last ys 0) else None
  else Some (nth j xs 0, nth j ys 0).

(** The body of [for t in times] once [j] has been advanced. *)
Definition sample_pos (mode : interp_mode) (ts : list Z) (xs ys : list Q)
    (j : nat) (t : Z) : result (option (Q * Q)) :=
  if (j <? length ts - 1)%nat then
    let t0 := nth j ts 0%Z in
    let t1 := nth (j + 1) ts 0%Z in
    if ((t0 <=? t)%Z && (t <=? t1)%Z)%bool then
      match mode with
      | Linear =>
          r <- truediv (t - t0) (Z.max 1 (t1 - t0)) ;;
          Ok (Some (nth j xs 0 * (1 - r) + nth (j + 1) xs 0 * r,
                    nth j ys 0 * (1 - r) + nth (j + 1) ys 0 * r))
      | Hold => Ok (Some (nth j xs 0, nth j ys 0))
      | Skip => Ok (tail_branches mode ts xs ys j t)
      end
    else Ok (tail_branches mode ts xs ys j t)
  else Ok (tail_branches mode ts xs ys j t).

(** The value of the linear branch on the bracket [j], [j+1] when the two
    timestamps differ: the guard [max(1, t1 - t0)] is then [t1 - t0]. *)
Definition linear_at (ts : list Z) (xs ys : list Q) (j : nat) (t : Z) : Q * Q :=
  let t0 := nth j ts 0%Z in
  let t1 := nth (j + 1) ts 0%Z in
  let r := inject_Z (t - t0) / inject_Z (t1 - t0) in
  (nth j xs 0 * (1 - r) + nth (j + 1) xs 0 * r,
   nth j ys 0 * (1 - r) + nth (j + 1) ys 0 * r).

(** [for t in times: ...] with the index [j] carried from one sample to the
    next. *)
Fixpoint pos_loop (mode : interp_mode) (ts : list Z) (xs ys : list Q)
    (j : nat) (times : list Z) : result (list (option (Q * Q))) :=
  match times with
  | [] => Ok []
  | t :: rest =>
      let j' := advance ts j t in
      p <- sample_pos mode ts xs ys j' t ;;
      out <- pos_loop mode ts xs ys j' rest ;;
      Ok (p :: out)
  end.

Definition interpolate_pos_for_times (waypoints : list waypoint)
    (times : list Z) (mode : interp_mode) : result (list (option (Q * Q))) :=
  match waypoints with
  | [] => Ok (repeat None (length times))
  | _ :: _ =>
      pos_loop mode (map wp_t waypoints) (map wp_x waypoints)
        (map wp_y waypoints) 0 times
  end.

(** *** parse_waypoints_and_mags *)

Definition mag_rec : Type := (Z * Q * Q * Q)%type.

(** [prefer]: ["cal"] or ["uncal"]; it is also the tag of the returned
    samples. *)
Inductive mag_source : Type := Cal | Uncal.

Record parse_state : Type := mk_parse_state {
  wps : list waypoint;
  mags_cal : list mag_rec;
  mags_uncal : list mag_rec
}.

Section Parser.

Variable py_int : string -> option Z.
Variable py_float : string -> option Q.

Definition tok (parts : list string) (i : nat) : string := nth i parts EmptyString.

(** The three floats of a magnetic-field line. *)
Definition mag_of (t : Z) (parts : list string) : result mag_rec :=
  bx <- conv py_float (tok parts 2) ;;
  by_ <- conv py_float (tok parts 3) ;;
  bz <- conv py_float (tok parts 4) ;;
  Ok (t, bx, by_, bz).

(** One iteration of [for line in f]. *)
Definition parse_line (st : parse_state) (line : string) : parse_state :=
  match line with
  | EmptyString => st
  | String c _ =>
      if Ascii.eqb c "#"%char then st
      else
        let parts := split (strip line) in
        if (length parts <? 2)%nat then st
        else match conv py_int (tok parts 0) with
             | Raise _ => st
             | Ok t =>
                 let typ := tok parts 1 in
                 if (String.eqb typ "TYPE_WAYPOINT"%string && (4 <=? length parts)%nat)%bool
                 then try_except
                        (x <- conv py_float (tok parts 2) ;;
                         y <- conv py_float (tok parts 3) ;;
                         Ok (mk_parse_state (wps st ++ [(t, x, y)])
                               (mags_cal st) (mags_uncal st)))
                        st
                 else if (String.eqb typ "TYPE_MAGNETIC_FIELD"%string && (5 <=? length parts)%nat)%bool
                 then try_except
                        (m <- mag_of t parts ;;
                         Ok (mk_parse_state (wps st) (mags_cal st ++ [m])
                               (mags_uncal st)))
                        st
                 else if (String.eqb typ "TYPE_MAGNETIC_FIELD_UNCALIBRATED"%string
                          && (5 <=? length parts)%nat)%bool
                 then try_except
                        (m <- mag_of t parts ;;
                         Ok (mk_parse_state (wps st) (mags_cal st)
                               (mags_uncal st ++ [m])))
                        st
                 else st
             end
  end.

Definition scan (lines : list string) : parse_state :=
  fold_left parse_line lines (mk_parse_state [] [] []).

Definition is_nil {A : Type} (l : list A) : bool :=
  match l with [] => true | _ :: _ => false end.

Definition parse_waypoints_and_mags (lines : list string) (prefer : mag_source)
  : list waypoint * list (mag_rec * mag_source) :=
  let st := scan lines in
  let wps := sort_by wp_t (wps st) in
  let mags_cal := sort_by (fun m : mag_rec => fst (fst (fst m))) (mags_cal st) in
  let mags_uncal := sort_by (fun m : mag_rec => fst (fst (fst m))) (mags_uncal st) in
  let '(mags, use_src) :=
    match prefer with
    | Uncal => if negb (is_nil mags_uncal) then (mags_uncal, Uncal)
               else (mags_cal, Cal)
    | Cal => if (is_nil mags_cal && negb (is_nil mags_uncal))%bool
             then (mags_uncal, Uncal) else (mags_cal, Cal)
    end in
  (wps, map (fun m => (m, use_src)) mags).

End Parser.

(** *** robust_minmax and the weights of make_geomag_heat_points *)

Definition eps6 : Q := 1 # 1000000.   (* 1e-6 *)
Definition eps9 : Q := 1 # 1000000000.   (* 1e-9 *)

(** The inner [q(p)] of [robust_minmax], on the sorted values [vs]. *)
Definition quantile (vs : list Q) (p : Q) : result Q :=
  match vs with
  | [] => Ok 0
  | _ :: _ =>
      let k := inject_Z (Z.of_nat (length vs) - 1) * (p / 100) in
      let f := Qfloor k in
      let c := Qceiling k in
      if (f =? c)%Z then list_item vs f
      else
        vf <- list_item vs f ;;
        vc <- list_item vs c ;;
        Ok (vf + (vc - vf) * (k - inject_Z f))
  end.

Definition robust_minmax (values : list Q) (q_low q_high : Q) : result (Q * Q) :=
  match values with
  | [] => Ok (0, 1)
  | _ :: _ =>
      let vs := sorted_q values in
      lo <- quantile vs q_low ;;
      hi <- quantile vs q_high ;;
      let hi := if Qle_bool hi lo then lo + eps6 else hi in
      Ok (lo, hi)
  end.

(** [def norm(v): v = max(lo, min(hi, v)); return (v - lo)/(hi - lo + 1e-9)];
    the float division raises when the denominator is zero. *)
Definition norm (lo hi v : Q) : result Q :=
  let v := Qmax lo (Qmin hi v) in
  if Qeq_bool (hi - lo + eps9) 0 then Raise ZeroDivisionError
  else Ok ((v - lo) / (hi - lo + eps9)).

Fixpoint mapM {A B : Type} (f : A -> result B) (l : list A) : result (list B) :=
  match l with
  | [] => Ok []
  | a :: r => b <- f a ;; bs <- mapM f r ;; Ok (b :: bs)
  end.

(** The weight column of [make_geomag_heat_points]: [raw_vals] is non-empty
    where the source calls [robust_minmax] (it returns [[]] before, when
    [temp_pts] is empty). *)
Definition heat_weights (raw_vals : list Q) (q_low q_high : Q) : result (list Q) :=
  match raw_vals with
  | [] => Ok []
  | _ :: _ =>
      b <- robust_minmax raw_vals q_low q_high ;;
      mapM (norm (fst b) (snd b)) raw_vals
  end.

End GeomagHeatmap.

(* ---------------------------------------------------------------------- *)
(** ** way_point_test/geomag_heatmap.py, in double precision               *)
(* ---------------------------------------------------------------------- *)

(** [interpolate_pos_for_times] once more, with the coordinates as IEEE
    binary64 numbers and every float operation rounded as Python rounds it.
    The timestamps stay exact integers, and the sweep [advance] over them is
    the one of [GeomagHeatmap]. *)

Module GeomagHeatmapDoubles.

Import GeomagHeatmap.
Import PrimFloat.

(** [float(n)] for a positive [n]; below [2^53] every step is exact. *)
Fixpoint float_of_pos (p : positive) : float :=
  match p with
  | xH => 1%float
  | xO q => (2 * float_of_pos q)%float
  | xI q => (2 * float_of_pos q + 1)%float
  end.

(** [float(n)] for an int [n], exact for [|n| < 2^53]. *)
Definition float_of_int (z : Z) : float :=
  match z with
  | Z0 => 0%float
  | Zpos p => float_of_pos p
  | Zneg p => (- float_of_pos p)%float
  end.

(** [a / b] on two Python ints: the correctly rounded quotient, or
    [ZeroDivisionError].  For operands below [2^53] in magnitude (all
    millisecond timestamps) it is the IEEE quotient of the two
    conversions. *)
Definition truediv (a b : Z) : result float :=
  if (b =? 0)%Z then Raise ZeroDivisionError
  else Ok (float_of_int a / float_of_int b)%float.

(** A waypoint [(t, x, y)]. *)
Definition waypoint : Type := (Z * float * float)%type.

Definition wp_t (w : waypoint) : Z := fst (fst w).
Definition wp_x (w : waypoint) : float := snd (fst w).
Definition wp_y (w : waypoint) : float := snd w.

Definition tail_branches (mode : interp_mode) (ts : list Z)
    (xs ys : list float) (j : nat) (t : Z) : option (float * float) :=
  if (t <? nth 0 ts 0)%Z then
    if is_hold mode then Some (nth 0 xs 0%float, nth 0 ys 0%float) else None
  else if (last ts 0%Z <? t)%Z then
    if is_hold mode then Some (last xs 0%float, last ys 0%float) else None
  else Some (nth j xs 0%float, nth j ys 0%float).

(** The body of [for t in times] once [j] has been advanced; in the linear
    branch [1 - r], the two products and the sum are each rounded. *)
Definition sample_pos (mode : interp_mode) (ts : list Z) (xs ys : list float)
    (j : nat) (t : Z) : result (option (float * float)) :=
  if (j <? length ts - 1)%nat then
    let t0 := nth j ts 0%Z in
    let t1 := nth (j + 1) ts 0%Z in
    if ((t0 <=? t)%Z && (t <=? t1)%Z)%bool then
      match mode with
      | Linear =>
          r <- truediv (t - t0) (Z.max 1 (t1 - t0)) ;;
          Ok (Some ((nth j xs 0 * (1 - r) + nth (j + 1) xs 0 * r)%float,
                    (nth j ys 0 * (1 - r) + nth (j + 1) ys 0 * r)%float))
      | Hold => Ok (Some (nth j xs 0%float, nth j ys 0%float))
      | Skip => Ok (tail_branches mode ts xs ys j t)
      end
    else Ok (tail_branches mode ts xs ys j t)
  else Ok (tail_branches mode ts xs ys j t).

Fixpoint pos_loop (mode : interp_mode) (ts : list Z) (xs ys : list float)
    (j : nat) (times : list Z) : result (list (option (float * float))) :=
  match times with
  | [] => Ok []
  | t :: rest =>
      let j' := advance ts j t in
      p <- sample_pos mode ts xs ys j' t ;;
      out <- pos_loop mode ts xs ys j' rest ;;
      Ok (p :: out)
  end.

Definition interpolate_pos_for_times (waypoints : list waypoint)
    (times : list Z) (mode : interp_mode)
  : result (list (option (float * float))) :=
  match waypoints with
  | [] => Ok (repeat None (length times))
  | _ :: _ =>
      pos_loop mode (map wp_t waypoints) (map wp_x waypoints)
        (map wp_y waypoints) 0 times
  end.




End GeomagHeatmapDoubles.

(* ---------------------------------------------------------------------- *)
(** ** 10.4waypoint_heatmap.py                                             *)
(* ---------------------------------------------------------------------- *)

Module WaypointHeatmap.

(** [(a, b, c, d, e, f)] *)
Definition affine : Type := (Q * Q * Q * Q * Q * Q)%type.

Section Affine.

Local Open Scope string_scope.

(** [float] on strings, and [math.cos(math.radians(.))],
    [math.sin(math.radians(.))]. *)
Variable py_float : string -> option Q.
Variable cos_deg sin_deg : Q -> Q.

Definition to_float (v : json) : result Q := py_float_of py_float v.

Definition _compose_affine (scale : Q * Q) (theta_deg : Q) (translate : Q * Q)
  : affine :=
  let '(sx, sy) := scale in
  let ct := cos_deg theta_deg in
  let st := sin_deg theta_deg in
  let a := ct * sx in let b := - st * sy in
  let c := st * sx in let d := ct * sy in
  let '(e, f) := translate in
  (a, b, c, d, e, f).

Definition norm6 (v : json) : result (option affine) :=
  match v with
  | JList [a; b; c; d; e; f] =>
      a <- to_float a ;; b <- to_float b ;; c <- to_float c ;;
      d <- to_float d ;; e <- to_float e ;; f <- to_float f ;;
      Ok (Some (a, b, c, d, e, f))
  | JList [JList [a; b; e]; v1] =>
      cdf <- unpack3 v1 ;;
      let '(c, d, f) := cdf in
      a <- to_float a ;; b <- to_float b ;; c <- to_float c ;;
      d <- to_float d ;; e <- to_float e ;; f <- to_float f ;;
      Ok (Some (a, b, c, d, e, f))
  | _ => Ok None
  end.

(** [for k in ("affine","matrix"): if k in t: v = norm6(t[k]); if v: return v] *)
Fixpoint try_keys (t : json) (ks : list string) : result (option affine) :=
  match ks with
  | [] => Ok None
  | k :: r =>
      present <- py_in k t ;;
      if present then
        tk <- py_getitem t k ;;
        v <- norm6 tk ;;
        match v with
        | Some A => Ok (Some A)
        | None => try_keys t r
        end
      else try_keys t r
  end.

(** The strategies that read the [transform] member [t]: the six named
    coefficients, then [affine] / [matrix], then [scale] + [translate]. *)
Definition affine_from_transform (t : json) : result (option affine) :=
  if (is_dict t
      && forallb (fun k => match t with JObj kv => has_key k kv | _ => false end)
           ["a"; "b"; "c"; "d"; "e"; "f"])%bool
  then
    a <- (v <- py_getitem t "a" ;; to_float v) ;;
    b <- (v <- py_getitem t "b" ;; to_float v) ;;
    c <- (v <- py_getitem t "c" ;; to_float v) ;;
    d <- (v <- py_getitem t "d" ;; to_float v) ;;
    e <- (v <- py_getitem t "e" ;; to_float v) ;;
    f <- (v <- py_getitem t "f" ;; to_float v) ;;
    Ok (Some (a, b, c, d, e, f))
  else
    v <- try_keys t ["affine"; "matrix"] ;;
    match v with
    | Some A => Ok (Some A)
    | None =>
        has_scale <- py_in "scale" t ;;
        has_both <- (if has_scale then py_in "translate" t else Ok false) ;;
        if has_both then
          sc <- py_get t "scale" (JList [JNum 1; JNum 1]) ;;
          s2 <- unpack2 (or_else sc (JList [JNum 1; JNum 1])) ;;
          tr <- py_get t "translate" (JList [JNum 0; JNum 0]) ;;
          t2 <- unpack2 (or_else tr (JList [JNum 0; JNum 0])) ;;
          th <- py_get t "theta_deg" (JNum 0) ;;
          theta <- to_float th ;;
          sx <- to_float (fst s2) ;; sy <- to_float (snd s2) ;;
          tx <- to_float (fst t2) ;; ty <- to_float (snd t2) ;;
          Ok (Some (_compose_affine (sx, sy) theta (tx, ty)))
        else Ok None
    end.

(** The strategy that reads the [map_info] member [mi]
    ([if isinstance(mi, dict): ...]). *)
Definition affine_from_map_info (mi : json) : result (option affine) :=
  match mi with
  | JObj kv =>
      o <- match dict_get "origin" kv with
           | Some (JList (o0 :: o1 :: _)) =>
               ox <- to_float o0 ;; oy <- to_float o1 ;; Ok (ox, oy)
           | _ => Ok (0, 0)
           end ;;
      th <- py_get mi "theta_deg" (JNum 0) ;;
      theta <- to_float th ;;
      if has_key "pixel_per_meter" kv then
        v <- py_getitem mi "pixel_per_meter" ;;
        ppm <- to_float v ;;
        Ok (Some (_compose_affine (ppm, ppm) theta o))
      else if has_key "meters_per_pixel" kv then
        v <- py_getitem mi "meters_per_pixel" ;;
        mpp <- to_float v ;;
        let ppm := if negb (Qeq_bool mpp 0) then 1 / mpp else 1 in
        Ok (Some (_compose_affine (ppm, ppm) theta o))
      else Ok None
  | _ => Ok None
  end.

Definition _try_affine_from_floorinfo (fi_raw : json) : result (option affine) :=
  let raw :=
    match fi_raw with
    | JObj _ => fi_raw
    | JList (x :: _) => x
    | _ => JObj []
    end in
  t0 <- py_get raw "transform" JNull ;;
  let t := or_else t0 (JObj []) in
  A <- affine_from_transform t ;;
  match A with
  | Some A => Ok (Some A)
  | None =>
      mi0 <- py_get raw "map_info" JNull ;;
      affine_from_map_info (or_else mi0 (JObj []))
  end.

(** [[float(x.strip()) for x in s.split(",")]], six parts make a transform,
    anything else (a failed conversion included) is [None]. *)
Definition _parse_affine_from_string (s : string) : option affine :=
  try_except
    (parts <- GeomagHeatmap.mapM (fun x => conv py_float (strip x))
                (split_comma [] s) ;;
     match parts with
     | [a; b; c; d; e; f] => Ok (Some (a, b, c, d, e, f))
     | _ => Ok None
     end)
    None.

(** Lines 472-490 of [main]: floor dimensions, then the transform: the
    override string of the environment, the floor metadata, the default
    flip. *)
Definition main_affine (AFFINE_OVERRIDE_STR : string) (floorinfo : json)
  : result affine :=
  let fi_dict :=
    match floorinfo with
    | JObj _ => floorinfo
    | JList (x :: _) => x
    | _ => JObj []
    end in
  mi <- py_getitem fi_dict "map_info" ;;
  map_w <- (v <- py_getitem mi "width" ;; to_float v) ;;
  map_h <- (v <- py_getitem mi "height" ;; to_float v) ;;
  let A :=
    if negb (String.eqb AFFINE_OVERRIDE_STR EmptyString)
    then _parse_affine_from_string AFFINE_OVERRIDE_STR else None in
  A <- match A with
       | None => _try_affine_from_floorinfo floorinfo
       | Some _ => Ok A
       end ;;
  Ok (match A with
      | None => (1, 0, 0, -(1), 0, map_h)
      | Some A => A
      end).

End Affine.

Definition _apply_affine_xy (x y : Q) (A : affine) : Q * Q :=
  let '(a, b, c, d, e, f) := A in
  let xp := a * x + b * y + e in
  let yp := c * x + d * y + f in
  (xp, yp).

Definition _xy_to_pixel (X_FLIP_AFTER_AFFINE Y_FLIP_AFTER_AFFINE : bool)
    (x y map_w map_h : Q) (A : affine) : Q * Q :=
  let '(xp, yp) := _apply_affine_xy x y A in
  let xp := if X_FLIP_AFTER_AFFINE then map_w - xp else xp in
  let yp := if Y_FLIP_AFTER_AFFINE then map_h - yp else yp in
  (xp, yp).

(** *** _read_waypoints *)

(** [Series.round()]: to the nearest integer, ties to the even one. *)
Definition round_half_even (q : Q) : Z :=
  let f := Qfloor q in
  match Qcompare (q - inject_Z f) (1 # 2) with
  | Lt => f
  | Gt => (f + 1)%Z
  | Eq => if Z.even f then f else (f + 1)%Z
  end.

(** [df.drop_duplicates(["_ix","_iy"])]: the first row of every grid cell
    stays. *)
Fixpoint drop_duplicates (snap : Q) (seen : list (Z * Z)) (rows : list waypoint)
  : list waypoint :=
  match rows with
  | [] => []
  | w :: r =>
      let k := (round_half_even (wp_x w / snap), round_half_even (wp_y w / snap)) in
      if existsb (fun k' => (fst k =? fst k')%Z && (snd k =? snd k')%Z) seen
      then drop_duplicates snap seen r
      else w :: drop_duplicates snap (k :: seen) r
  end.

(** What [_read_waypoints] does with the collected rows: sort by [ts], then
    snap to the grid when [SNAP_WAYPOINT_METERS > 0].  ([sort_values] is
    modelled by the stable sort; the statements below do not depend on the
    order of equal timestamps.) *)
Definition frame_of_rows (SNAP_WAYPOINT_METERS : Q) (rows : list waypoint)
  : list waypoint :=
  match rows with
  | [] => []
  | _ :: _ =>
      let df := sort_by wp_t rows in
      if Qlt_le_dec 0 SNAP_WAYPOINT_METERS
      then drop_duplicates SNAP_WAYPOINT_METERS [] df
      else df
  end.

Section ReadWaypoints.

Variable py_int : string -> option Z.
Variable py_float : string -> option Q.

Local Open Scope string_scope.

(** [ts = int(p[0]); x = float(p[2]); y = float(p[3])] *)
Definition wp_row (p : list string) : result waypoint :=
  ts <- conv py_int (nth 0 p EmptyString) ;;
  x <- conv py_float (nth 2 p EmptyString) ;;
  y <- conv py_float (nth 3 p EmptyString) ;;
  Ok (ts, x, y).

(** The test [len(p) >= 4 and p[1] == "TYPE_WAYPOINT"]. *)
Definition is_waypoint_line (p : list string) : bool :=
  ((4 <=? length p)%nat && String.eqb (nth 1 p EmptyString) "TYPE_WAYPOINT")%bool.

(** [None] for a blank or comment line, the tokens otherwise. *)
Definition tokens (line : string) : option (list string) :=
  let s := strip line in
  if (String.eqb s EmptyString || startswith "#" s)%bool then None
  else Some (split (replace_commas s)).

(** One iteration of [for line in f]; the conversions sit in
    [try: ... except Exception: pass]. *)
Definition read_line (rows : list waypoint) (line : string) : list waypoint :=
  match tokens line with
  | None => rows
  | Some p =>
      if is_waypoint_line p
      then try_except (r <- wp_row p ;; Ok (app rows [r])) rows
      else rows
  end.

Definition read_rows (lines : list string) : list waypoint :=
  fold_left read_line lines [].

(** A line with a recognised type token whose conversions fail: it is not
    blank, not a comment, passes the test on the type token, and
    [int] / [float] raise on one of its fields. *)
Definition unconvertible (line : string) (e : pyexn) : Prop :=
  exists p, tokens line = Some p /\ is_waypoint_line p = true /\
            wp_row p = Raise e.

Definition _read_waypoints (SNAP_WAYPOINT_METERS : Q) (lines : list string)
  : list waypoint :=
  frame_of_rows SNAP_WAYPOINT_METERS (read_rows lines).

End ReadWaypoints.

(** *** interpolate_magnetic_to_xy *)

(** A magnetometer sample [(ts, B)] and an output row [(ts, x, y, B)]. *)
Definition mag_sample : Type := (Z * Q)%type.
Definition xyB_row : Type := (Z * Q * Q * Q)%type.

Definition row_ts (r : xyB_row) : Z := fst (fst (fst r)).
Definition row_x (r : xyB_row) : Q := snd (fst (fst r)).
Definition row_y (r : xyB_row) : Q := snd (fst r).
Definition row_B (r : xyB_row) : Q := snd r.

(** [merge_asof(..., direction="backward")] for one left key: the last row
    of the sorted right frame whose key is [<= t]. *)
Fixpoint asof_backward (t : Z) (wp : list waypoint) : option waypoint :=
  match wp with
  | [] => None
  | w :: r =>
      if (wp_t w <=? t)%Z then
        match asof_backward t r with
        | Some w' => Some w'
        | None => Some w
        end
      else None
  end.

(** [merge_asof(..., direction="forward")] for one left key: the first row
    of the sorted right frame whose key is [>= t]. *)
Fixpoint asof_forward (t : Z) (wp : list waypoint) : option waypoint :=
  match wp with
  | [] => None
  | w :: r => if (t <=? wp_t w)%Z then Some w else asof_forward t r
  end.

(** One row of [z = prev.join(nxt)]: the sample with its two matches. *)
Definition joined : Type := (mag_sample * option waypoint * option waypoint)%type.

(** The row filter
    [(~ts_prev.isna()) & (~ts_next.isna()) & (ts_next > ts_prev)]. *)
Definition keep_row (z : joined) : bool :=
  match z with
  | (_, Some p, Some n) => (wp_t p <? wp_t n)%Z
  | _ => false
  end.

(** The columns [x] and [y] of a row that passed the filter. *)
Definition interp_row (z : joined) : option xyB_row :=
  match z with
  | ((ts, B), Some p, Some n) =>
      let t := inject_Z (ts - wp_t p) / inject_Z (wp_t n - wp_t p) in
      Some (ts, wp_x p + t * (wp_x n - wp_x p),
                wp_y p + t * (wp_y n - wp_y p), B)
  | _ => None
  end.

Definition some_list {A : Type} (o : option A) : list A :=
  match o with Some a => [a] | None => [] end.

Definition interpolate_magnetic_to_xy (mf : list mag_sample) (wp : list waypoint)
  : list xyB_row :=
  if (GeomagHeatmap.is_nil mf || (length wp <? 2)%nat)%bool then []
  else
    let wp := sort_by wp_t wp in
    let mf := sort_by (fun m : mag_sample => fst m) mf in
    let prev := map (fun m => (m, asof_backward (fst m) wp)) mf in
    let nxt := map (fun m : mag_sample => asof_forward (fst m) wp) mf in
    let z := combine prev nxt in
    let z := filter keep_row z in
    flat_map (fun r => some_list (interp_row r)) z.

(** *** The heat layer of [main] *)

(** [np.percentile(a, q)] (linear method) on a non-empty array and
    [0 <= q <= 100]: the virtual index [(n-1)*q/100] is split into the
    index below it and a fraction. *)
Definition np_percentile (a : list Q) (q : Q) : Q :=
  let s := sorted_q a in
  let k := inject_Z (Z.of_nat (length a) - 1) * (q / 100) in
  let prev := Z.to_nat (Qfloor k) in
  let next := Nat.min (prev + 1) (length a - 1) in
  let gamma := k - inject_Z (Qfloor k) in
  nth prev s 0 + (nth next s 0 - nth prev s 0) * gamma.

(** [plo, phi = np.percentile(Bvals, ROBUST_CLIP_P)] *)
Definition heat_bounds (ROBUST_CLIP_P : Q * Q) (Bvals : list Q) : Q * Q :=
  (np_percentile Bvals (fst ROBUST_CLIP_P), np_percentile Bvals (snd ROBUST_CLIP_P)).

(** [np.isfinite]: every rational is finite. *)
Definition isfinite (_ : Q) : bool := true.

(** [np.clip(x, lo, hi)] *)
Definition np_clip (x lo hi : Q) : Q := Qmin (Qmax x lo) hi.

(** Lines 627-632: the weight column. *)
Definition heat_weights (ROBUST_CLIP_P : Q * Q) (Bvals : list Q) : list Q :=
  let '(plo, phi) := heat_bounds ROBUST_CLIP_P Bvals in
  if (negb (isfinite plo) || negb (isfinite phi)
      || Qle_bool (phi - plo) GeomagHeatmap.eps9)%bool
  then map (fun _ => 1) Bvals
  else map (fun b => np_clip ((b - plo) / (phi - plo)) 0 1) Bvals.

Section Heat.

(** [DataFrame.sample(n, random_state=42)]: [n] rows drawn without
    replacement by a seeded generator. *)
Variable sample : nat -> list (xyB_row * Q) -> list (xyB_row * Q).

Variable MAX_MAG_POINTS : nat.
Variable ROBUST_CLIP_P : Q * Q.

(** Lines 627-636: weights first, then the cap on the number of rows.  The
    result is the frame that is rendered, a row with its weight [w]. *)
Definition heat_rows (xyB : list xyB_row) : list (xyB_row * Q) :=
  let Bvals := map row_B xyB in
  let weights := heat_weights ROBUST_CLIP_P Bvals in
  let xyB := combine xyB weights in
  if (MAX_MAG_POINTS <? length xyB)%nat then sample MAX_MAG_POINTS xyB
  else xyB.

(** Lines 638-641: [[yp, xp, w]] per rendered row. *)
Definition heat_points (X_FLIP_AFTER_AFFINE Y_FLIP_AFTER_AFFINE : bool)
    (map_w map_h : Q) (A : affine) (xyB : list xyB_row) : list (Q * Q * Q) :=
  map (fun r : xyB_row * Q =>
         let '(xp, yp) :=
           _xy_to_pixel X_FLIP_AFTER_AFFINE Y_FLIP_AFTER_AFFINE
             (row_x (fst r)) (row_y (fst r)) map_w map_h A in
         (yp, xp, snd r))
      (heat_rows xyB).

End Heat.

End WaypointHeatmap.

(* ---------------------------------------------------------------------- *)
(** ** way_point_test/geomag_heatmap.py, the affine part                   *)
(* ---------------------------------------------------------------------- *)

(** [parse_affine_from_string], [compose_affine], [norm6] and the strategies
    of [try_affine_from_floorinfo] have the text of their counterparts in
    [10.4waypoint_heatmap.py]; the two scripts differ in how they reach the
    [transform] and [map_info] members and in what follows a failed
    resolution (no default flip here: [A] stays [None]). *)
Module GeomagHeatmapAffine.

Import WaypointHeatmap.

Section Affine.

Variable py_float : string -> option Q.
Variable cos_deg sin_deg : Q -> Q.

Local Open Scope string_scope.

Definition try_affine_from_floorinfo (fi_raw : json) : result (option affine) :=
  let raw := fi_raw in
  t0 <- (if is_dict raw then py_get raw "transform" JNull else Ok JNull) ;;
  let t := or_else t0 (JObj []) in
  A <- affine_from_transform py_float cos_deg sin_deg t ;;
  match A with
  | Some A => Ok (Some A)
  | None =>
      mi <- (if is_dict raw then py_get raw "map_info" JNull else Ok JNull) ;;
      affine_from_map_info py_float cos_deg sin_deg mi
  end.

(** Lines 340-348 of [main]: [args.affine], then the floor metadata. *)
Definition main_affine (args_affine : option string) (fi_raw : json)
  : result (option affine) :=
  let A :=
    match args_affine with
    | Some s => if negb (String.eqb s EmptyString)
                then _parse_affine_from_string py_float s else None
    | None => None
    end in
  match A with
  | None => try_affine_from_floorinfo fi_raw
  | Some _ => Ok A
  end.

End Affine.

End GeomagHeatmapAffine.

(** *** make_geomag_heat_points *)

Module GeomagHeatPoints.

Import GeomagHeatmap.

Definition apply_affine_xy (x y : Q) (A : WaypointHeatmap.affine) : Q * Q :=
  let '(a, b, c, d, e, f) := A in
  (a * x + b * y + e, c * x + d * y + f).

(** [l[::step]] for a positive [step], written as a walk that keeps an item
    and then skips [step - 1] of them. *)
Fixpoint slice_step {X : Type} (skip step : nat) (l : list X) : list X :=
  match l with
  | [] => []
  | a :: r =>
      match skip with
      | O => a :: slice_step (step - 1) step r
      | S k => slice_step k step r
      end
  end.

(** [t] of a tagged sample [(t, bx, by, bz, src)]. *)
Definition mag_time (m : mag_rec * mag_source) : Z := fst (fst (fst (fst m))).

Section HeatPoints.

Variable py_int : string -> option Z.
Variable py_float : string -> option Q.

(** [math.sqrt]; its argument here is a sum of squares. *)
Variable sqrt : Q -> Q.

Variable A : option WaypointHeatmap.affine.
Variable map_h : Q.
Variable y_flip : bool.
Variable prefer_src : mag_source.
Variable stat : string.
Variable subsample : Z.
Variable interp_mode_ : interp_mode.

Local Open Scope string_scope.

(** The [if stat == ...] chain. *)
Definition stat_value (m : mag_rec * mag_source) : Q :=
  let '(_, bx, by_, bz, _) := m in
  if String.eqb stat "mag" then sqrt (bx * bx + by_ * by_ + bz * bz)
  else if String.eqb stat "bx" then bx
  else if String.eqb stat "by" then by_
  else if String.eqb stat "bz" then bz
  else sqrt (bx * bx + by_ * by_ + bz * bz).

(** [for p, m in zip(pos, mags): ...], building [keep]. *)
Fixpoint keep_points (pm : list (option (Q * Q) * (mag_rec * mag_source)))
  : list (Q * Q * Q) :=
  match pm with
  | [] => []
  | (None, _) :: r => keep_points r
  | (Some (x, y), m) :: r =>
      let v := stat_value m in
      let '(x, y) := match A with
                     | Some A => apply_affine_xy x y A
                     | None => (x, y)
                     end in
      let y := if y_flip then map_h - y else y in
      (x, y, v) :: keep_points r
  end.

(** The body of [for txt in txt_files], on the lines of the file: the points
    the file adds to [temp_pts]. *)
Definition file_points (lines : list string) : result (list (Q * Q * Q)) :=
  let '(wps, mags) := parse_waypoints_and_mags py_int py_float lines prefer_src in
  if ((length wps <? 2)%nat || (length mags =? 0)%nat)%bool then Ok []
  else
    let times := map mag_time mags in
    pos <- interpolate_pos_for_times wps times interp_mode_ ;;
    let keep := keep_points (combine pos mags) in
    Ok (if (1 <? subsample)%Z then slice_step 0 (Z.to_nat subsample) keep
        else keep).

(** [temp_pts] after the loop over the files. *)
Fixpoint collect (txt_files : list (list string)) : result (list (Q * Q * Q)) :=
  match txt_files with
  | [] => Ok []
  | lines :: rest =>
      pts <- file_points lines ;;
      more <- collect rest ;;
      Ok (app pts more)
  end.

(** The result rows are [[lat, lon, weight] = [y, x, norm(v)]]. *)
Definition make_geomag_heat_points (txt_files : list (list string))
    (q_low q_high : Q) : result (list (Q * Q * Q)) :=
  temp_pts <- collect txt_files ;;
  match temp_pts with
  | [] => Ok []
  | _ :: _ =>
      b <- robust_minmax (map snd temp_pts) q_low q_high ;;
      mapM (fun p : Q * Q * Q =>
              let '(x, y, v) := p in
              w <- norm (fst b) (snd b) v ;;
              Ok (y, x, w))
           temp_pts
  end.

End HeatPoints.

End GeomagHeatPoints.

(* ---------------------------------------------------------------------- *)
(** ** geomagnetic.py                                                      *)
(* ---------------------------------------------------------------------- *)

Module Geomagnetic.

Import WaypointHeatmap.

Section ReadWaypoints.

Variable py_int : string -> option Z.
Variable py_float : string -> option Q.

(** One iteration of [for line in f]: the conversions are not guarded, so
    the iteration can raise. *)
Definition read_line (rows : list waypoint) (line : string)
  : result (list waypoint) :=
  match tokens line with
  | None => Ok rows
  | Some p =>
      if is_waypoint_line p
      then r <- wp_row py_int py_float p ;; Ok (app rows [r])
      else Ok rows
  end.

Fixpoint read_rows (rows : list waypoint) (lines : list string)
  : result (list waypoint) :=
  match lines with
  | [] => Ok rows
  | line :: rest => rows' <- read_line rows line ;; read_rows rows' rest
  end.

Definition _read_waypoints (SNAP_WP_M : Q) (lines : list string)
  : result (list waypoint) :=
  rows <- read_rows [] lines ;;
  Ok (frame_of_rows SNAP_WP_M rows).

End ReadWaypoints.

(** The same text as in [10.4waypoint_heatmap.py]. *)
Definition interpolate_magnetic_to_xy := WaypointHeatmap.interpolate_magnetic_to_xy.

Section Heat.

(** [DataFrame.sample(n, random_state=42)] *)
Variable sample : nat -> list xyB_row -> list xyB_row.

Variable HEAT_MAX_PTS : nat.
Variable ROBUST_CLIP_P : Q * Q.

(** Lines 234-235: the rows that are rendered. *)
Definition capped (xyB : list xyB_row) : list xyB_row :=
  if (HEAT_MAX_PTS <? length xyB)%nat
  then sort_by row_ts (sample HEAT_MAX_PTS xyB)
  else xyB.

(** Lines 238-240: the weights, from the percentiles of the capped frame. *)
Definition heat_rows (xyB : list xyB_row) : list (xyB_row * Q) :=
  let xyB := capped xyB in
  let '(p_lo, p_hi) := heat_bounds ROBUST_CLIP_P (map row_B xyB) in
  let denom := Qmax GeomagHeatmap.eps6 (p_hi - p_lo) in
  map (fun r => (r, (np_clip (row_B r) p_lo p_hi - p_lo) / denom)) xyB.

End Heat.

End Geomagnetic.

(* ---------------------------------------------------------------------- *)
(** ** Inputs used in the statements                                       *)
(* ---------------------------------------------------------------------- *)

Module Scenarios.

Import WaypointHeatmap.

Local Open Scope string_scope.

(** Floor metadata with [map_info] width and height and nothing else. *)
Definition bare_floorinfo (w h : Q) : json :=
  JObj [("map_info", JObj [("width", JNum w); ("height", JNum h)])].

(** Floor metadata whose [transform] has a [scale] that is not a pair. *)
Definition floorinfo_scalar_scale : json :=
  JObj [("map_info", JObj [("width", JNum 100); ("height", JNum 200)]);
        ("transform", JObj [("scale", JNum 2);
                            ("translate", JList [JNum 0; JNum 0])])].

(** Floor metadata whose [transform] has the six named coefficients, the
    first of them [v]. *)
Definition floorinfo_coeff (v : json) : json :=
  JObj [("map_info", JObj [("width", JNum 100); ("height", JNum 200)]);
        ("transform", JObj [("a", v); ("b", JNum 0); ("c", JNum 0);
                            ("d", JNum 1); ("e", JNum 0); ("f", JNum 0)])].

(** Three interpolated rows [(ts, x, y, B)] with the field values 0, 0
    and 100. *)
Definition xyB_three : list xyB_row :=
  [(1%Z, 0, 0, 0); (2%Z, 1, 0, 0); (3%Z, 2, 0, 100)].

(** [sample n l] draws [n] rows of [l] without replacement. *)
Definition draws {X : Type} (sample : nat -> list X -> list X)
    (n : nat) (l : list X) : Prop :=
  length (sample n l) = n /\ exists rest, Permutation (sample n l ++ rest) l.

(** Two pairs of percentile bounds are the same pair of numbers. *)
Definition same_bounds (b1 b2 : Q * Q) : Prop :=
  fst b1 == fst b2 /\ snd b1 == snd b2.


(** A log with two waypoints and three calibrated samples, one before the
    first waypoint, one between the two and one after the last. *)
Definition track_file : list string :=
  ["# startTime:1000"%string;
   "1000 TYPE_WAYPOINT 0 0"%string;
   "2000 TYPE_WAYPOINT 10 0"%string;
   "500 TYPE_MAGNETIC_FIELD 1 2 3"%string;
   "1500 TYPE_MAGNETIC_FIELD 4 5 6"%string;
   "2500 TYPE_MAGNETIC_FIELD 7 8 9"%string].

(** A log with samples and a single waypoint. *)
Definition trackless_file : list string :=
  ["1000 TYPE_WAYPOINT 0 0"%string;
   "500 TYPE_MAGNETIC_FIELD 1 2 3"%string].

End Scenarios.

Import Scenarios.

(* ---------------------------------------------------------------------- *)
(** ** 10.4waypoint_heatmap.py, the GeoJSON transform                      *)
(* ---------------------------------------------------------------------- *)

Module GeoJson.

Import WaypointHeatmap.

(** What a call can end in: a value, an exception of [pyexn], or the
    [RecursionError] of an unbounded recursion. *)
Inductive outcome (A : Type) : Type :=
| Done (a : A)
| Fails (e : pyexn)
| RecursionError.

Arguments Done {A} a.
Arguments Fails {A} e.
Arguments RecursionError {A}.

Definition obind {A B : Type} (c : outcome A) (k : A -> outcome B) : outcome B :=
  match c with
  | Done a => k a
  | Fails e => Fails e
  | RecursionError => RecursionError
  end.

Definition lift {A : Type} (c : result A) : outcome A :=
  match c with
  | Ok a => Done a
  | Raise e => Fails e
  end.

(** [isinstance(v, (int, float))] with the value as a float; a [bool] is an
    [int]. *)
Definition num_of (v : json) : option Q :=
  match v with
  | JNum q => Some q
  | JBool b => Some (if b then 1 else 0)
  | _ => None
  end.

(** [d[k] = v] on a copy of the dict [kv]: the key keeps its place when it is
    there already, and goes to the end otherwise. *)
Fixpoint dict_set (k : string) (v : json) (kv : list (string * json))
  : list (string * json) :=
  match kv with
  | [] => [(k, v)]
  | (k', v') :: r =>
      if String.eqb k k'
      then (k, v) :: filter (fun p => negb (String.eqb k (fst p))) r
      else (k', v') :: dict_set k v r
  end.

Section Transform.

Variable X_FLIP_AFTER_AFFINE Y_FLIP_AFTER_AFFINE : bool.
Variable map_w map_h : Q.
Variable A : affine.

Local Open Scope string_scope.

(** The inner [_tx(coords)].  A list that starts with a number is a
    position: its first two items go through [_xy_to_pixel]; any other list
    is transformed item by item.  A non-empty string is iterated character
    by character, each character being a string of the same kind again. *)
Fixpoint _tx (coords : json) : outcome json :=
  match coords with
  | JList l =>
      match l with
      | [] => Fails IndexError
      | c0 :: rest =>
          match num_of c0 with
          | Some x =>
              match rest with
              | [] => Fails ValueError
              | c1 :: _ =>
                  match num_of c1 with
                  | Some y =>
                      let '(xp, yp) :=
                        _xy_to_pixel X_FLIP_AFTER_AFFINE Y_FLIP_AFTER_AFFINE
                          x y map_w map_h A in
                      Done (JList [JNum xp; JNum yp])
                  | None => Fails TypeError
                  end
              end
          | None =>
              obind
                ((fix go (cs : list json) : outcome (list json) :=
                    match cs with
                    | [] => Done []
                    | c :: r =>
                        obind (_tx c) (fun v =>
                        obind (go r) (fun vs => Done (v :: vs)))
                    end) l)
                (fun vs => Done (JList vs))
          end
      end
  | JStr s =>
      match s with
      | EmptyString => Fails IndexError
      | String _ _ => RecursionError
      end
  | JObj _ => Fails KeyError
  | _ => Fails TypeError
  end.

(** The body of [for ft in gj.get("features", [])]: [None] when the feature
    is skipped, the rewritten feature otherwise. *)
Definition tx_feature (ft : json) : outcome (option json) :=
  obind (lift (py_get ft "geometry" JNull)) (fun g0 =>
  let g := or_else g0 (JObj []) in
  if negb (truthy g) then Done None
  else
    obind (lift (py_get g "type" JNull)) (fun ty =>
    obind (lift (py_get g "coordinates" JNull)) (fun co =>
    obind (_tx co) (fun c =>
    match ft with
    | JObj kv =>
        Done (Some (JObj (dict_set "geometry"
                            (JObj [("type", ty); ("coordinates", c)]) kv)))
    | _ => Fails AttributeError
    end)))).

Fixpoint tx_features (fts : list json) : outcome (list json) :=
  match fts with
  | [] => Done []
  | ft :: r =>
      obind (tx_feature ft) (fun o =>
      obind (tx_features r) (fun out =>
      Done (match o with Some f2 => f2 :: out | None => out end)))
  end.

Definition _tx_geojson_xy_to_simple (gj : json) : outcome json :=
  obind (lift (py_get gj "type" JNull)) (fun ty =>
  match ty with
  | JStr "FeatureCollection" =>
      obind (lift (py_get gj "features" (JList []))) (fun fs =>
      obind (lift (py_iter fs)) (fun fts =>
      obind (tx_features fts) (fun out =>
      Done (JObj [("type", JStr "FeatureCollection"); ("features", JList out)]))))
  | _ =>
      obind (lift (py_get gj "type" (JStr "GeometryCollection"))) (fun ty' =>
      obind (lift (py_get gj "coordinates" (JList []))) (fun co =>
      obind (_tx co) (fun c =>
      Done (JObj [("type", ty'); ("coordinates", c)]))))
  end).

End Transform.

(** Coordinates as GeoJSON has them: a position (two numbers and possibly
    more members, an altitude for instance), or a non-empty array of
    coordinates. *)
Inductive ctree : Type :=
| Pt (x y : Q) (extra : list json)
| Nest (first : ctree) (others : list ctree).

Fixpoint ctree_json (t : ctree) : json :=
  match t with
  | Pt x y extra => JList (JNum x :: JNum y :: extra)
  | Nest c cs => JList (ctree_json c :: map ctree_json cs)
  end.

(** The same tree with every position sent through [f] and cut down to its
    two coordinates. *)
Fixpoint ctree_map (f : Q -> Q -> Q * Q) (t : ctree) : ctree :=
  match t with
  | Pt x y _ => Pt (fst (f x y)) (snd (f x y)) []
  | Nest c cs => Nest (ctree_map f c) (map (ctree_map f) cs)
  end.

End GeoJson.

(* ---------------------------------------------------------------------- *)
(** ** Notions used to state further properties                            *)
(* ---------------------------------------------------------------------- *)

Module Notions.

Import WaypointHeatmap.

(** The grid cell [(_ix, _iy)] of a waypoint for the snap distance [snap]. *)
Definition grid_cell (snap : Q) (w : waypoint) : Z * Z :=
  (round_half_even (wp_x w / snap), round_half_even (wp_y w / snap)).

(** A feature with a [geometry] member that is neither missing, [null] nor
    empty. *)
Definition has_geometry (ft : json) : bool :=
  match ft with
  | JObj kv =>
      match dict_get "geometry" kv with
      | Some g => truthy g
      | None => false
      end
  | _ => false
  end.

(** Two points are the same pair of numbers. *)
Definition same_point (p q : Q * Q) : Prop :=
  fst p == fst q /\ snd p == snd q.

(** The timestamp of a magnetic record [(t, bx, by, bz)]. *)
Definition mag_t (m : GeomagHeatmap.mag_rec) : Z := fst (fst (fst m)).

End Notions.

Import Notions.

(* ====================================================================== *)
(** * Part II: properties                                                  *)
(* ====================================================================== *)

(** ** Arithmetic on rationals *)

Lemma ratio_unit (a b : Z) :
  (0 <= a <= b)%Z -> (0 < b)%Z -> 0 <= inject_Z a / inject_Z b <= 1.
Proof.
  intros [Ha Hab] Hb.
  assert (Hb' : inject_Z 0 < inject_Z b) by (rewrite <- Zlt_Qlt; exact Hb).
  assert (Ha' : inject_Z 0 <= inject_Z a) by (rewrite <- Zle_Qle; exact Ha).
  assert (Hab' : inject_Z a <= inject_Z b) by (rewrite <- Zle_Qle; exact Hab).
  change (inject_Z 0) with 0 in Hb', Ha'.
  split.
  - apply Qle_shift_div_l; [exact Hb'|]. rewrite Qmult_0_l. exact Ha'.
  - apply Qle_shift_div_r; [exact Hb'|]. rewrite Qmult_1_l. exact Hab'.
Qed.

Lemma convex_between (a b r : Q) :
  0 <= r <= 1 ->
  Qmin a b <= a * (1 - r) + b * r <= Qmax a b.
Proof.
  intros [H0 H1].
  pose proof (Q.le_min_l a b). pose proof (Q.le_min_r a b).
  pose proof (Q.le_max_l a b). pose proof (Q.le_max_r a b).
  split; nra.
Qed.

(** ** The two-pointer interpolator *)

Section TwoPointer.

Import GeomagHeatmap.

Variable ts : list Z.

(** What the [while] loop guarantees, whatever the fuel: [j] only grows, stays
    inside the list, and sits on a timestamp [<= t] as soon as it has moved;
    with enough fuel the loop condition is false on exit. *)
Lemma advance_fuel_spec (t : Z) (fuel j : nat) :
  let j' := advance_fuel fuel ts j t in
  (j <= j')%nat /\
  (j' = j \/ (nth j' ts 0 <= t)%Z) /\
  ((j < length ts)%nat -> (j' < length ts)%nat) /\
  ((length ts <= fuel + j + 1)%nat ->
   ~ ((j' + 1 < length ts)%nat /\ (nth (j' + 1) ts 0 <= t)%Z)).
Proof.
  revert j. induction fuel as [|fuel IH]; intros j; cbn [advance_fuel].
  - repeat split; auto; lia.
  - destruct (Nat.ltb_spec (j + 1) (length ts)) as [Hlt|Hge]; cbn [andb].
    + destruct (Z.leb_spec (nth (j + 1) ts 0%Z) t) as [Hle|Hgt].
      * specialize (IH (j + 1)%nat). cbv zeta in IH.
        destruct IH as (H1 & H2 & H3 & H4).
        split; [lia|]. split; [|split; [lia|]].
        -- destruct H2 as [-> | H2]; [right; exact Hle | right; exact H2].
        -- intros Hf. apply H4. lia.
      * repeat split; auto; lia.
    + repeat split; auto; lia.
Qed.

Lemma advance_spec (t : Z) (j : nat) :
  let j' := advance ts j t in
  (j <= j')%nat /\
  (j' = j \/ (nth j' ts 0 <= t)%Z) /\
  ((j < length ts)%nat -> (j' < length ts)%nat) /\
  ~ ((j' + 1 < length ts)%nat /\ (nth (j' + 1) ts 0 <= t)%Z).
Proof.
  unfold advance.
  destruct (advance_fuel_spec t (length ts) j) as (H1 & H2 & H3 & H4).
  repeat split; auto. apply H4. lia.
Qed.

(** Termination of the [while] loop: with the fuel [advance] gives it, the
    loop stops because its condition is false, not because the fuel ran out. *)
Lemma advance_exit (t : Z) (j : nat) :
  let j' := advance ts j t in
  ((j' + 1 <? length ts)%nat && (nth (j' + 1) ts 0 <=? t)%Z)%bool = false.
Proof.
  cbv zeta. destruct (advance_spec t j) as (_ & _ & _ & H).
  apply andb_false_iff.
  destruct (Nat.ltb_spec (advance ts j t + 1) (length ts)); [|now left].
  right. apply Z.leb_gt.
  destruct (Z.le_gt_cases (nth (advance ts j t + 1) ts 0%Z) t); [|assumption].
  exfalso. apply H. split; assumption.
Qed.

Variables xs ys : list Q.

(** The denominator guard: the body of the loop never raises. *)
Lemma sample_pos_total (mode : interp_mode) (j : nat) (t : Z) :
  exists p, sample_pos mode ts xs ys j t = Ok p.
Proof.
  unfold sample_pos.
  destruct (j <? length ts - 1)%nat; [|eauto].
  destruct (_ && _)%bool; [|eauto].
  destruct mode; eauto.
  unfold truediv.
  destruct (Z.eqb_spec (Z.max 1 (nth (j + 1) ts 0 - nth j ts 0)) 0)%Z as [E|E];
    [lia|]. cbn [bind]. eauto.
Qed.

Lemma pos_loop_total (mode : interp_mode) (times : list Z) (j : nat) :
  exists out, pos_loop mode ts xs ys j times = Ok out /\
              length out = length times.
Proof.
  revert j. induction times as [|t rest IH]; intros j; cbn [pos_loop].
  - exists []. auto.
  - destruct (sample_pos_total mode (advance ts j t) t) as [p ->].
    destruct (IH (advance ts j t)) as (out & -> & Hlen).
    cbn [bind]. exists (p :: out). cbn [length]. auto.
Qed.

End TwoPointer.

Lemma last_as_nth {A : Type} (l : list A) (d : A) :
  last l d = nth (length l - 1) l d.
Proof.
  induction l as [|a [|b r] IH]; try reflexivity.
  change (last (a :: b :: r) d) with (last (b :: r) d). rewrite IH.
  cbn [length].
  replace (S (S (length r)) - 1)%nat with (S (length r)) by lia.
  replace (S (length r) - 1)%nat with (length r) by lia.
  reflexivity.
Qed.

Section LinearSweep.

Import GeomagHeatmap.

Variable ts : list Z.
Variables xs ys : list Q.

Lemma sample_pos_linear (j : nat) (t : Z) :
  (j + 1 < length ts)%nat ->
  (nth j ts 0 <= t < nth (j + 1) ts 0)%Z ->
  sample_pos Linear ts xs ys j t = Ok (Some (linear_at ts xs ys j t)).
Proof.
  intros Hj [H0 H1]. unfold sample_pos, linear_at.
  destruct (Nat.ltb_spec j (length ts - 1)) as [_|?]; [|lia].
  destruct (Z.leb_spec (nth j ts 0%Z) t) as [_|?]; [|lia].
  destruct (Z.leb_spec t (nth (j + 1) ts 0%Z)) as [_|?]; [|lia].
  cbn [andb]. unfold truediv.
  rewrite Z.max_r by lia.
  destruct (Z.eqb_spec (nth (j + 1) ts 0 - nth j ts 0) 0)%Z; [lia|].
  reflexivity.
Qed.

(** The sweep over ascending sample times: the index [j] handed from one
    sample to the next is [0] or sits on a timestamp that no later sample
    precedes, so every sample strictly inside the waypoint range lands on its
    bracket. *)
Lemma pos_loop_linear (times : list Z) :
  forall (j i : nat) (t : Z),
    StronglySorted Z.le times ->
    (j < length ts)%nat ->
    (forall t', In t' times -> j = 0%nat \/ (nth j ts 0 <= t')%Z) ->
    nth_error times i = Some t ->
    (nth 0 ts 0 < t < last ts 0)%Z ->
    exists out j',
      pos_loop Linear ts xs ys j times = Ok out /\
      (j' + 1 < length ts)%nat /\
      (nth j' ts 0 <= t < nth (j' + 1) ts 0)%Z /\
      nth_error out i = Some (Some (linear_at ts xs ys j' t)).
Proof.
  induction times as [|t0 rest IH]; intros j i t Hsorted Hj Hbelow Hi Hrange.
  - destruct i; discriminate Hi.
  - apply StronglySorted_inv in Hsorted. destruct Hsorted as [Hrest Hall].
    rewrite Forall_forall in Hall.
    destruct (advance_spec ts t0 j) as (Hle & Hmoved & Hin & Hexit).
    specialize (Hin Hj). cbv zeta in *.
    set (j1 := advance ts j t0) in *.
    assert (Hbelow1 : forall t', In t' (t0 :: rest) ->
                                 j1 = 0%nat \/ (nth j1 ts 0 <= t')%Z).
    { intros t' Ht'. destruct Hmoved as [E | Hm].
      - rewrite E. apply Hbelow. exact Ht'.
      - right. destruct Ht' as [<- | Ht']; [exact Hm|].
        specialize (Hall _ Ht'). lia. }
    cbn [pos_loop]. fold j1.
    destruct i as [|i].
    + cbn [nth_error] in Hi. injection Hi as ->.
      assert (H0 : (nth j1 ts 0 <= t)%Z).
      { destruct (Hbelow1 t (or_introl eq_refl)) as [E | H]; [|exact H].
        rewrite E. lia. }
      assert (Hj1 : (j1 + 1 < length ts)%nat).
      { destruct (Nat.lt_ge_cases (j1 + 1) (length ts)) as [H|H]; [exact H|].
        exfalso. rewrite last_as_nth in Hrange.
        replace (length ts - 1)%nat with j1 in Hrange by lia. lia. }
      assert (H1 : (t < nth (j1 + 1) ts 0)%Z).
      { destruct (Z.lt_ge_cases t (nth (j1 + 1) ts 0%Z)) as [H|H]; [exact H|].
        exfalso. apply Hexit. split; [exact Hj1 | lia]. }
      rewrite (sample_pos_linear j1 t Hj1 (conj H0 H1)).
      destruct (pos_loop_total ts xs ys Linear rest j1) as (out & -> & _).
      cbn [bind]. exists (Some (linear_at ts xs ys j1 t) :: out), j1.
      repeat split; auto.
    + cbn [nth_error] in Hi.
      destruct (IH j1 i t Hrest Hin
                  (fun t' Ht' => Hbelow1 t' (or_intror Ht')) Hi Hrange)
        as (out & j' & -> & Hj' & Hbr & Hout).
      destruct (sample_pos_total ts xs ys Linear j1 t0) as [p ->].
      cbn [bind]. exists (p :: out), j'. repeat split; auto; lia.
Qed.

End LinearSweep.

(** ** Positions of the two-pointer interpolator (C1, C2, C3) *)

Section Interpolator.

Import GeomagHeatmap.

Lemma nth_map_wp_t (l : list waypoint) (j : nat) :
  nth j (map wp_t l) 0%Z = wp_t (nth j l wp0).
Proof. exact (map_nth wp_t l wp0 j). Qed.

Lemma nth_map_wp_x (l : list waypoint) (j : nat) :
  nth j (map wp_x l) 0 = wp_x (nth j l wp0).
Proof. exact (map_nth wp_x l wp0 j). Qed.

Lemma nth_map_wp_y (l : list waypoint) (j : nat) :
  nth j (map wp_y l) 0 = wp_y (nth j l wp0).
Proof. exact (map_nth wp_y l wp0 j). Qed.


(** The order of the samples matters as well, already in exact arithmetic:
    the sweep never moves back, so a sample that comes after a later one is
    answered from the waypoint the sweep stopped at.  Here the sample at
    [t = 5], bracketed by the waypoints at 0 and 10, gets [x = 20]. *)
Lemma unsorted_samples_miss_the_bracket :
  exists p x y,
    interpolate_pos_for_times
      [(0%Z, 0, 0); (10%Z, 10, 0); (20%Z, 20, 0); (30%Z, 30, 0)]
      [25%Z; 5%Z] Linear
    = Ok [p; Some (x, y)] /\
    ~ (Qmin 0 10 <= x <= Qmax 0 10).
Proof.
  eexists. eexists. eexists. split; [vm_compute; reflexivity|].
  intros [_ H]. vm_compute in H. apply H. reflexivity.
Qed.



(** C2 (evaluation).  Skip mode on a sample bracketed by two consecutive
    waypoints: the mode has no branch of its own inside the bracket, the
    sample falls through to the last [else] and gets the position of the
    earlier waypoint instead of no position. *)
Theorem skip_mode_bracketed_sample_gets_position :
  interpolate_pos_for_times [(1000%Z, 0, 0); (2000%Z, 10, 0)] [1500%Z] Skip
  = Ok [Some (0, 0)].
Proof. vm_compute. reflexivity. Qed.

(** C3 (as stated, refuted).  With two waypoints on the same timestamp the
    sample at that timestamp does not get the first waypoint [(0,0)]. *)
Lemma zero_duration_not_first_waypoint :
  ~ exists x y,
      interpolate_pos_for_times [(1000%Z, 0, 0); (1000%Z, 5, 5)] [1000%Z] Linear
      = Ok [Some (x, y)] /\ x == 0 /\ y == 0.
Proof.
  intros (x & y & H & Hx & _).
  vm_compute in H. injection H as <- <-. discriminate Hx.
Qed.

(** C3 (amended).  The sweep moves past every waypoint whose timestamp is
    [<= t], so the sample gets the last waypoint carrying that timestamp,
    [(5,5)]; the call returns, no exception is raised. *)
Theorem zero_duration_returns_last_waypoint :
  interpolate_pos_for_times [(1000%Z, 0, 0); (1000%Z, 5, 5)] [1000%Z] Linear
  = Ok [Some (5, 5)].
Proof. vm_compute. reflexivity. Qed.

End Interpolator.

(** ** Stable sorting by an integer key *)

Section SortBy.

Context {A : Type} (key : A -> Z).

Lemma insert_by_perm (a : A) (l : list A) :
  Permutation (insert_by key a l) (a :: l).
Proof.
  induction l as [|b r IH]; cbn [insert_by]; [reflexivity|].
  destruct (key a <=? key b)%Z; [reflexivity|].
  rewrite IH. apply perm_swap.
Qed.

Lemma sort_by_perm (l : list A) : Permutation (sort_by key l) l.
Proof.
  induction l as [|a r IH]; [reflexivity|].
  unfold sort_by in *. cbn [fold_right].
  rewrite insert_by_perm. now apply perm_skip.
Qed.

Lemma sort_by_In (l : list A) (a : A) : In a (sort_by key l) <-> In a l.
Proof.
  split; apply Permutation_in; [|symmetry]; apply sort_by_perm.
Qed.

Lemma insert_by_sorted (a : A) (l : list A) :
  StronglySorted (key_le key) l -> StronglySorted (key_le key) (insert_by key a l).
Proof.
  induction l as [|b r IH]; intros Hs; cbn [insert_by].
  - repeat constructor.
  - apply StronglySorted_inv in Hs. destruct Hs as [Hr Hb].
    destruct (Z.leb_spec (key a) (key b)) as [Hab|Hba].
    + constructor; [constructor; assumption|].
      constructor; [exact Hab|].
      eapply Forall_impl; [|exact Hb].
      intros c Hc. unfold key_le in *. lia.
    + constructor; [apply IH; exact Hr|].
      eapply Permutation_Forall; [symmetry; apply insert_by_perm|].
      constructor; [unfold key_le; lia | exact Hb].
Qed.

Lemma sort_by_sorted (l : list A) : StronglySorted (key_le key) (sort_by key l).
Proof.
  induction l as [|a r IH]; [constructor|].
  unfold sort_by in *. cbn [fold_right]. now apply insert_by_sorted.
Qed.

(** The sort leaves an ascending list as it is. *)
Lemma sort_by_sorted_id (l : list A) :
  StronglySorted (key_le key) l -> sort_by key l = l.
Proof.
  induction l as [|a r IH]; intros Hs; [reflexivity|].
  apply StronglySorted_inv in Hs. destruct Hs as [Hr Ha].
  unfold sort_by in *. cbn [fold_right]. rewrite (IH Hr).
  destruct r as [|b r']; [reflexivity|]. cbn [insert_by].
  apply Forall_inv in Ha. unfold key_le in Ha.
  destruct (Z.leb_spec (key a) (key b)); [reflexivity | lia].
Qed.

End SortBy.

(** ** The merge_asof interpolator (C9, C10) *)

Section MergeAsof.

Import WaypointHeatmap.

(** A backward match is a waypoint not later than the sample, and, on a
    sorted frame, no waypoint lies between the two. *)
Lemma asof_backward_spec (t : Z) (wp : list waypoint) (p : waypoint) :
  StronglySorted (key_le wp_t) wp ->
  asof_backward t wp = Some p ->
  In p wp /\ (wp_t p <= t)%Z /\
  forall w, In w wp -> (wp_t w <= t)%Z -> (wp_t w <= wp_t p)%Z.
Proof.
  induction wp as [|a r IH] in p |- *; intros Hs H; cbn [asof_backward] in H;
    [discriminate|].
  apply StronglySorted_inv in Hs. destruct Hs as [Hr Ha].
  rewrite Forall_forall in Ha. unfold key_le in Ha.
  destruct (Z.leb_spec (wp_t a) t) as [Hat|Hat]; [|discriminate].
  destruct (asof_backward t r) as [p'|] eqn:E.
  - injection H as <-. destruct (IH p' Hr eq_refl) as (Hin & Hle & Hmax).
    split; [right; exact Hin|]. split; [exact Hle|].
    intros w [<- | Hw] Hwt; [apply Ha; exact Hin | apply Hmax; assumption].
  - injection H as <-. split; [left; reflexivity|]. split; [exact Hat|].
    intros w [<- | Hw] Hwt; [lia|].
    exfalso. destruct r as [|b r']; [contradiction|].
    cbn [asof_backward] in E.
    destruct (Z.leb_spec (wp_t b) t) as [Hbt|Hbt].
    + destruct (asof_backward t r'); discriminate.
    + apply StronglySorted_inv in Hr. destruct Hr as [_ Hb].
      rewrite Forall_forall in Hb. unfold key_le in Hb.
      destruct Hw as [<- | Hw]; [lia|]. specialize (Hb _ Hw). lia.
Qed.

(** A forward match is a waypoint not earlier than the sample, and, on a
    sorted frame, no waypoint lies between the two. *)
Lemma asof_forward_spec (t : Z) (wp : list waypoint) (n : waypoint) :
  StronglySorted (key_le wp_t) wp ->
  asof_forward t wp = Some n ->
  In n wp /\ (t <= wp_t n)%Z /\
  forall w, In w wp -> (t <= wp_t w)%Z -> (wp_t n <= wp_t w)%Z.
Proof.
  induction wp as [|a r IH]; intros Hs H; cbn [asof_forward] in H;
    [discriminate|].
  apply StronglySorted_inv in Hs. destruct Hs as [Hr Ha].
  rewrite Forall_forall in Ha. unfold key_le in Ha.
  destruct (Z.leb_spec t (wp_t a)) as [Hta|Hta].
  - injection H as <-. split; [left; reflexivity|]. split; [exact Hta|].
    intros w [<- | Hw] _; [lia | apply Ha; exact Hw].
  - destruct (IH Hr H) as (Hin & Hle & Hmin).
    split; [right; exact Hin|]. split; [exact Hle|].
    intros w [<- | Hw] Hwt; [lia | apply Hmin; assumption].
Qed.

Lemma combine_map_same {X Y Z' : Type} (f : X -> Y) (g : X -> Z') (l : list X) :
  combine (map f l) (map g l) = map (fun x => (f x, g x)) l.
Proof.
  induction l as [|a r IH]; [reflexivity|]. cbn [map combine]. now rewrite IH.
Qed.

(** The rows of the output, one by one: a row comes from a sample whose
    backward and forward matches exist and have different timestamps. *)
Lemma interpolate_magnetic_to_xy_rows
    (mf : list mag_sample) (wp : list waypoint) (r : xyB_row) :
  In r (interpolate_magnetic_to_xy mf wp) <->
  (mf <> [] /\ (2 <= length wp)%nat /\
   exists m p n,
     In m mf /\
     asof_backward (fst m) (sort_by wp_t wp) = Some p /\
     asof_forward (fst m) (sort_by wp_t wp) = Some n /\
     (wp_t p < wp_t n)%Z /\
     interp_row (m, Some p, Some n) = Some r).
Proof.
  unfold interpolate_magnetic_to_xy.
  destruct mf as [|m0 mf'] eqn:Emf.
  { cbn. split; [contradiction | intros [H _]; now apply H]. }
  rewrite <- Emf. assert (Hne : mf <> []) by (rewrite Emf; discriminate).
  replace (GeomagHeatmap.is_nil mf) with false by (rewrite Emf; reflexivity).
  cbn [orb].
  destruct (Nat.ltb_spec (length wp) 2) as [Hlen|Hlen].
  { split; [contradiction | intros (_ & H & _); lia]. }
  rewrite combine_map_same, in_flat_map.
  split.
  - intros (z & Hz & Hr). apply filter_In in Hz. destruct Hz as [Hz Hk].
    apply in_map_iff in Hz. destruct Hz as (m & <- & Hm).
    apply sort_by_In in Hm.
    cbv beta in Hk, Hr. unfold keep_row in Hk.
    destruct (asof_backward (fst m) (sort_by wp_t wp)) as [p|] eqn:Ep;
      [|discriminate].
    destruct (asof_forward (fst m) (sort_by wp_t wp)) as [n|] eqn:En;
      [|destruct m; discriminate].
    destruct m as [ts B]. apply Z.ltb_lt in Hk.
    split; [exact Hne|]. split; [exact Hlen|].
    exists (ts, B), p, n. repeat split; auto.
    cbn [interp_row some_list In] in Hr |- *.
    destruct Hr as [<- | []]. reflexivity.
  - intros (_ & _ & m & p & n & Hm & Ep & En & Hlt & Hr).
    exists (m, Some p, Some n). split.
    + apply filter_In. split.
      * apply in_map_iff. exists m. rewrite Ep, En. split; [reflexivity|].
        apply sort_by_In. exact Hm.
      * destruct m. cbn [keep_row]. apply Z.ltb_lt. exact Hlt.
    + rewrite Hr. left. reflexivity.
Qed.

(** C9.  Every row of the output belongs to a sample of the input, its
    timestamp is the timestamp of no waypoint, and it lies strictly between
    the timestamps of two waypoints: a sample on a waypoint timestamp (the
    first and the last included) matches that timestamp backward and forward,
    fails the test [ts_next > ts_prev] and leaves no row. *)
Theorem merge_asof_drops_samples_on_waypoints :
  forall (mf : list mag_sample) (wp : list waypoint) (r : xyB_row),
    In r (interpolate_magnetic_to_xy mf wp) ->
    In (row_ts r, row_B r) mf /\
    (forall w, In w wp -> wp_t w <> row_ts r) /\
    (exists w0 w1, In w0 wp /\ In w1 wp /\
                   (wp_t w0 < row_ts r < wp_t w1)%Z).
Proof.
  intros mf wp r Hr.
  apply interpolate_magnetic_to_xy_rows in Hr.
  destruct Hr as (_ & _ & m & p & n & Hm & Ep & En & Hlt & Hrow).
  pose proof (sort_by_sorted wp_t wp) as Hs.
  destruct (asof_backward_spec _ _ _ Hs Ep) as (Hp & Hpt & Hmax).
  destruct (asof_forward_spec _ _ _ Hs En) as (Hn & Hnt & Hmin).
  apply sort_by_In in Hp, Hn.
  destruct m as [ts B]. cbn [interp_row] in Hrow. injection Hrow as <-.
  cbn [fst] in *. unfold row_ts, row_B. cbn [fst snd].
  assert (Hno : forall w, In w wp -> wp_t w <> ts).
  { intros w Hw E. apply (sort_by_In wp_t) in Hw.
    specialize (Hmax w Hw). specialize (Hmin w Hw). lia. }
  split; [exact Hm|]. split; [exact Hno|].
  exists p, n. split; [exact Hp|]. split; [exact Hn|].
  specialize (Hno p Hp) as Hp'. specialize (Hno n Hn) as Hn'. lia.
Qed.

Lemma merge_asof_drops_samples_on_waypoints_witness :
  In (1500%Z, 7) [(1500%Z, 7); (1000%Z, 8); (2000%Z, 9)] /\
  (forall w, In w [(1000%Z, 0, 0); (2000%Z, 10, 0)] -> wp_t w <> 1500%Z) /\
  (exists w0 w1, In w0 [(1000%Z, 0, 0); (2000%Z, 10, 0)] /\
                 In w1 [(1000%Z, 0, 0); (2000%Z, 10, 0)] /\
                 (wp_t w0 < 1500 < wp_t w1)%Z).
Proof.
  apply (merge_asof_drops_samples_on_waypoints
           [(1500%Z, 7); (1000%Z, 8); (2000%Z, 9)]
           [(1000%Z, 0, 0); (2000%Z, 10, 0)]
           (1500%Z, 5000 # 1000, 0 # 1000, 7)).
  vm_compute. left. reflexivity.
Defined.

End MergeAsof.

Section Agreement.

Import WaypointHeatmap.

Lemma strictly_sorted_nth (l : list Z) :
  StronglySorted Z.lt l ->
  forall a b, (a < b < length l)%nat -> (nth a l 0 < nth b l 0)%Z.
Proof.
  induction 1 as [|x r Hr IH Hx]; intros a b Hab; [cbn in Hab; lia|].
  cbn [length] in Hab. rewrite Forall_forall in Hx.
  destruct b as [|b]; [lia|]. destruct a as [|a]; cbn [nth].
  - apply Hx. apply nth_In. lia.
  - apply IH. lia.
Qed.

Lemma sorted_keys (X : Type) (key : X -> Z) (R : Z -> Z -> Prop) (l : list X) :
  (forall a b, R a b -> (a <= b)%Z) ->
  StronglySorted R (map key l) -> StronglySorted (key_le key) l.
Proof.
  intros HR. induction l as [|a r IH]; intros Hs; [constructor|].
  cbn [map] in Hs. apply StronglySorted_inv in Hs. destruct Hs as [Hr Ha].
  constructor; [apply IH; exact Hr|].
  rewrite Forall_forall in Ha |- *. intros b Hb.
  apply HR. apply Ha. apply in_map. exact Hb.
Qed.

(** On a sorted frame the backward match of a sample inside the bracket
    [w0], [w1] is [w0]. *)
Lemma asof_backward_at (t : Z) (wp : list waypoint) :
  StronglySorted (key_le wp_t) wp ->
  forall j w0 w1,
    nth_error wp j = Some w0 -> nth_error wp (S j) = Some w1 ->
    (wp_t w0 <= t < wp_t w1)%Z ->
    asof_backward t wp = Some w0.
Proof.
  induction 1 as [|a r Hr IH Ha]; intros j w0 w1 H0 H1 Ht;
    [destruct j; discriminate|].
  rewrite Forall_forall in Ha. unfold key_le in Ha.
  destruct j as [|j]; cbn [nth_error] in H0, H1.
  - injection H0 as ->. destruct r as [|b r']; [discriminate|].
    cbn [nth_error] in H1. injection H1 as ->.
    cbn [asof_backward].
    destruct (Z.leb_spec (wp_t w0) t); [|lia].
    destruct (Z.leb_spec (wp_t w1) t); [lia|]. reflexivity.
  - cbn [asof_backward]. rewrite (IH j w0 w1 H0 H1 Ht).
    specialize (Ha w0 (nth_error_In _ _ H0)).
    destruct (Z.leb_spec (wp_t a) t); [reflexivity | lia].
Qed.

(** ... and its forward match is [w1]. *)
Lemma asof_forward_at (t : Z) (wp : list waypoint) :
  StronglySorted (key_le wp_t) wp ->
  forall j w0 w1,
    nth_error wp j = Some w0 -> nth_error wp (S j) = Some w1 ->
    (wp_t w0 < t <= wp_t w1)%Z ->
    asof_forward t wp = Some w1.
Proof.
  induction 1 as [|a r Hr IH Ha]; intros j w0 w1 H0 H1 Ht;
    [destruct j; discriminate|].
  rewrite Forall_forall in Ha. unfold key_le in Ha.
  destruct j as [|j]; cbn [nth_error] in H0, H1.
  - injection H0 as ->. destruct r as [|b r']; [discriminate|].
    cbn [nth_error] in H1. injection H1 as ->.
    cbn [asof_forward].
    destruct (Z.leb_spec t (wp_t w0)); [lia|].
    destruct (Z.leb_spec t (wp_t w1)); [reflexivity | lia].
  - cbn [asof_forward]. rewrite (IH j w0 w1 H0 H1 Ht).
    specialize (Ha w0 (nth_error_In _ _ H0)).
    destruct (Z.leb_spec t (wp_t a)); [lia | reflexivity].
Qed.

Lemma interpolate_pos_for_times_cons
    (wp : list waypoint) (times : list Z) (mode : GeomagHeatmap.interp_mode) :
  wp <> [] ->
  GeomagHeatmap.interpolate_pos_for_times wp times mode
  = GeomagHeatmap.pos_loop mode (map wp_t wp) (map wp_x wp) (map wp_y wp) 0 times.
Proof.
  destruct wp; [intros H; now contradiction H | reflexivity].
Qed.

(** C10.  Waypoints with strictly increasing timestamps, samples in ascending
    order, a sample [(t, B)] strictly inside the bracket of two consecutive
    waypoints [w0], [w1] (hence on no waypoint timestamp): the two-pointer
    interpolator in linear mode and the merge_asof interpolator give the
    sample the same position, the one of ratio [(t - t0)/(t1 - t0)] on that
    bracket. *)
Theorem two_pointer_agrees_with_merge_asof :
  forall (wp : list waypoint) (mf : list mag_sample) (i j : nat)
         (t : Z) (B : Q) (w0 w1 : waypoint),
    Sorted Z.lt (map wp_t wp) ->
    Sorted Z.le (map fst mf) ->
    nth_error mf i = Some (t, B) ->
    nth_error wp j = Some w0 ->
    nth_error wp (S j) = Some w1 ->
    (wp_t w0 < t < wp_t w1)%Z ->
    let r := inject_Z (t - wp_t w0) / inject_Z (wp_t w1 - wp_t w0) in
    exists out x y x' y',
      GeomagHeatmap.interpolate_pos_for_times wp (map fst mf) GeomagHeatmap.Linear
        = Ok out /\
      nth_error out i = Some (Some (x, y)) /\
      In (t, x', y', B) (interpolate_magnetic_to_xy mf wp) /\
      x == x' /\ y == y' /\
      x' == wp_x w0 + r * (wp_x w1 - wp_x w0) /\
      y' == wp_y w0 + r * (wp_y w1 - wp_y w0).
Proof.
  intros wp mf i j t B w0 w1 Hwp Hmf Hi H0 H1 Ht r.
  assert (Hlt : StronglySorted Z.lt (map wp_t wp)).
  { apply Sorted_StronglySorted; [|exact Hwp]. intros a b c. apply Z.lt_trans. }
  assert (Hle : StronglySorted Z.le (map fst mf)).
  { apply Sorted_StronglySorted; [|exact Hmf]. intros a b c. apply Z.le_trans. }
  assert (Hkeys : StronglySorted (key_le wp_t) wp).
  { apply (sorted_keys _ wp_t Z.lt); [intros; lia | exact Hlt]. }
  assert (Hj : (S j < length wp)%nat) by (apply nth_error_Some; congruence).
  assert (E0 : nth j wp wp0 = w0) by (now apply nth_error_nth).
  assert (E1 : nth (j + 1) wp wp0 = w1)
    by (rewrite Nat.add_1_r; now apply nth_error_nth).
  (* the two-pointer sweep *)
  assert (Hrange : (nth 0 (map wp_t wp) 0 < t < last (map wp_t wp) 0)%Z).
  { rewrite last_as_nth, length_map.
    assert (nth 0 (map wp_t wp) 0 <= nth j (map wp_t wp) 0)%Z.
    { destruct j; [lia|]. apply Z.lt_le_incl.
      apply strictly_sorted_nth; [exact Hlt | rewrite length_map; lia]. }
    assert (nth (j + 1) (map wp_t wp) 0 <= nth (length wp - 1) (map wp_t wp) 0)%Z.
    { destruct (Nat.eq_dec (j + 1) (length wp - 1)) as [->|]; [lia|].
      apply Z.lt_le_incl.
      apply strictly_sorted_nth; [exact Hlt | rewrite length_map; lia]. }
    rewrite !nth_map_wp_t, ?E0, ?E1 in *. lia. }
  destruct (pos_loop_linear (map wp_t wp) (map wp_x wp) (map wp_y wp)
              (map fst mf) 0 i t Hle)
    as (out & j' & Hout & Hj' & Hbr & Hnth); auto.
  { rewrite length_map. lia. }
  { rewrite (map_nth_error fst i mf Hi). reflexivity. }
  rewrite length_map in Hj'.
  assert (Ej : j' = j).
  { destruct (Nat.lt_trichotomy j' j) as [Hc | [Hc | Hc]]; [|exact Hc|]; exfalso.
    - assert (nth (j' + 1) (map wp_t wp) 0 <= nth j (map wp_t wp) 0)%Z.
      { destruct (Nat.eq_dec (j' + 1) j) as [->|]; [lia|].
        apply Z.lt_le_incl.
        apply strictly_sorted_nth; [exact Hlt | rewrite length_map; lia]. }
      rewrite !nth_map_wp_t, ?E0, ?E1 in *. lia.
    - assert (nth (j + 1) (map wp_t wp) 0 <= nth j' (map wp_t wp) 0)%Z.
      { destruct (Nat.eq_dec (j + 1) j') as [->|]; [lia|].
        apply Z.lt_le_incl.
        apply strictly_sorted_nth; [exact Hlt | rewrite length_map; lia]. }
      rewrite !nth_map_wp_t, ?E0, ?E1 in *. lia. }
  subst j'.
  (* the merge_asof join *)
  assert (Hrow : In (t, wp_x w0 + r * (wp_x w1 - wp_x w0),
                        wp_y w0 + r * (wp_y w1 - wp_y w0), B)
                    (interpolate_magnetic_to_xy mf wp)).
  { apply interpolate_magnetic_to_xy_rows.
    split; [intros ->; destruct i; discriminate|]. split; [lia|].
    exists (t, B), w0, w1. cbn [fst].
    rewrite (sort_by_sorted_id wp_t wp Hkeys).
    split; [eapply nth_error_In; exact Hi|].
    split; [apply (asof_backward_at t wp Hkeys j w0 w1 H0 H1); lia|].
    split; [apply (asof_forward_at t wp Hkeys j w0 w1 H0 H1); lia|].
    split; [lia | reflexivity]. }
  rewrite interpolate_pos_for_times_cons by (intros ->; cbn in Hj; lia).
  eexists. eexists. eexists. eexists. eexists.
  split; [exact Hout|]. split; [exact Hnth|]. split; [exact Hrow|].
  rewrite !nth_map_wp_t, !nth_map_wp_x, !nth_map_wp_y, E0, E1.
  fold r. repeat split; try reflexivity; ring.
Qed.

Lemma two_pointer_agrees_with_merge_asof_witness :
  let r := inject_Z (1500 - 1000) / inject_Z (2000 - 1000) in
  exists out x y x' y',
    GeomagHeatmap.interpolate_pos_for_times
      [(1000%Z, 0, 0); (2000%Z, 10, 4)] (map fst [(1500%Z, 7)])
      GeomagHeatmap.Linear = Ok out /\
    nth_error out 0 = Some (Some (x, y)) /\
    In (1500%Z, x', y', 7)
       (interpolate_magnetic_to_xy [(1500%Z, 7)] [(1000%Z, 0, 0); (2000%Z, 10, 4)]) /\
    x == x' /\ y == y' /\
    x' == 0 + r * (10 - 0) /\
    y' == 0 + r * (4 - 0).
Proof.
  apply (two_pointer_agrees_with_merge_asof
           [(1000%Z, 0, 0); (2000%Z, 10, 4)] [(1500%Z, 7)] 0 0 1500%Z 7
           (1000%Z, 0, 0) (2000%Z, 10, 4)).
  - repeat constructor.
  - repeat constructor.
  - reflexivity.
  - reflexivity.
  - reflexivity.
  - vm_compute. split; reflexivity.
Defined.

End Agreement.

(** ** Resolution of the affine transform (C4, C7) *)

Section AffineResolution.

Import WaypointHeatmap.

Local Open Scope string_scope.

Variable py_float : string -> option Q.
Variable cos_deg sin_deg : Q -> Q.

(** C7.  Floor metadata that holds only the width and the height of
    [map_info], no override string: the resolved transform is the default
    flip [(1, 0, 0, -1, 0, map_h)]; with height 200 it sends [(10, 20)] to
    [(10, 180)], also through [_xy_to_pixel] with both flips off. *)
Theorem bare_map_info_resolves_to_default_flip :
  (forall w h : Q,
      main_affine py_float cos_deg sin_deg EmptyString (bare_floorinfo w h)
      = Ok (1, 0, 0, -(1), 0, h)) /\
  main_affine py_float cos_deg sin_deg EmptyString (bare_floorinfo 100 200)
  = Ok (1, 0, 0, -(1), 0, 200) /\
  _apply_affine_xy 10 20 (1, 0, 0, -(1), 0, 200) = (10, 180) /\
  _xy_to_pixel false false 10 20 100 200 (1, 0, 0, -(1), 0, 200) = (10, 180).
Proof.
  split; [intros w h; reflexivity|].
  split; [reflexivity|]. split; reflexivity.
Qed.

(** C4 (evaluation).  The resolution is not total: a [scale] that is not a
    pair, or a coefficient that is not a number ([null], a list), makes
    [_try_affine_from_floorinfo] raise, and [main] has no handler around it,
    so no transform is produced and the default flip is never reached.  The
    same metadata makes [try_affine_from_floorinfo] of [geomag_heatmap.py]
    raise. *)
Theorem affine_resolution_raises_on_malformed_transform :
  main_affine py_float cos_deg sin_deg EmptyString floorinfo_scalar_scale
  = Raise TypeError /\
  main_affine py_float cos_deg sin_deg EmptyString (floorinfo_coeff JNull)
  = Raise TypeError /\
  main_affine py_float cos_deg sin_deg EmptyString
    (floorinfo_coeff (JList [JNum 1]))
  = Raise TypeError /\
  GeomagHeatmapAffine.main_affine py_float cos_deg sin_deg None
    floorinfo_scalar_scale
  = Raise TypeError /\
  GeomagHeatmapAffine.main_affine py_float cos_deg sin_deg None
    (floorinfo_coeff JNull)
  = Raise TypeError.
Proof. repeat split; reflexivity. Qed.

(** A coefficient given as text that [float] rejects: [ValueError]. *)
Lemma affine_resolution_raises_on_text_coefficient (s : string) :
  py_float s = None ->
  main_affine py_float cos_deg sin_deg EmptyString (floorinfo_coeff (JStr s))
  = Raise ValueError.
Proof.
  intros H. unfold main_affine, floorinfo_coeff. cbn.
  unfold conv. rewrite H. reflexivity.
Qed.

(** The sibling strategy: an override string that does not parse is skipped,
    the resolution goes on with the floor metadata. *)
Lemma malformed_override_is_skipped (s : string) (w h : Q) :
  _parse_affine_from_string py_float s = None ->
  main_affine py_float cos_deg sin_deg s (bare_floorinfo w h)
  = Ok (1, 0, 0, -(1), 0, h).
Proof.
  intros H. unfold main_affine, bare_floorinfo. cbn.
  rewrite H. destruct (negb (String.eqb s EmptyString)); reflexivity.
Qed.

End AffineResolution.

(** ** Lines whose numbers do not convert (C8) *)

Section BadLines.

Import WaypointHeatmap.

Local Open Scope string_scope.

Variable py_int : string -> option Z.
Variable py_float : string -> option Q.

Lemma geomagnetic_read_rows_app (rows : list waypoint) (a b : list string) :
  Geomagnetic.read_rows py_int py_float rows (a ++ b)
  = (rows' <- Geomagnetic.read_rows py_int py_float rows a ;;
     Geomagnetic.read_rows py_int py_float rows' b).
Proof.
  revert rows. induction a as [|l a IH]; intros rows; [reflexivity|].
  cbn [app Geomagnetic.read_rows].
  destruct (Geomagnetic.read_line py_int py_float rows l); [|reflexivity].
  cbn [bind]. apply IH.
Qed.

(** C8 (evaluation).  In [geomagnetic.py] the conversions of
    [_read_waypoints] are not guarded: a waypoint line whose numbers do not
    convert, after any lines that were read without error, makes the whole
    call raise; the records of the other lines are lost. *)
Theorem geomagnetic_read_waypoints_raises_on_bad_line :
  forall (SNAP_WP_M : Q) (pre post : list string) (line : string)
         (rows : list waypoint) (e : pyexn),
    Geomagnetic.read_rows py_int py_float [] pre = Ok rows ->
    unconvertible py_int py_float line e ->
    Geomagnetic._read_waypoints py_int py_float SNAP_WP_M (pre ++ line :: post)
    = Raise e.
Proof.
  intros snap pre post line rows e Hpre (p & Hp & Hw & He).
  unfold Geomagnetic._read_waypoints.
  rewrite geomagnetic_read_rows_app, Hpre. cbn [bind Geomagnetic.read_rows].
  unfold Geomagnetic.read_line. rewrite Hp, Hw, He. reflexivity.
Qed.

(** The sibling in [10.4waypoint_heatmap.py]: the same line is dropped and
    the scan goes on, the result is the one of the file without the line. *)
Lemma waypoint_heatmap_read_line_drops (rows : list waypoint) (line : string)
    (e : pyexn) :
  unconvertible py_int py_float line e -> read_line py_int py_float rows line = rows.
Proof.
  intros (p & Hp & Hw & He). unfold read_line.
  rewrite Hp, Hw, He. reflexivity.
Qed.

Lemma waypoint_heatmap_read_waypoints_drops_bad_line
    (SNAP_WAYPOINT_METERS : Q) (pre post : list string) (line : string)
    (e : pyexn) :
  unconvertible py_int py_float line e ->
  _read_waypoints py_int py_float SNAP_WAYPOINT_METERS (pre ++ line :: post)
  = _read_waypoints py_int py_float SNAP_WAYPOINT_METERS (pre ++ post).
Proof.
  intros H. unfold _read_waypoints, read_rows.
  rewrite !fold_left_app. cbn [fold_left].
  rewrite (waypoint_heatmap_read_line_drops _ _ _ H). reflexivity.
Qed.

(** The sibling in [geomag_heatmap.py]: a [TYPE_WAYPOINT] line whose
    timestamp converts and whose coordinates do not leaves the state of the
    scan as it was. *)
Lemma geomag_heatmap_parse_line_drops (st : GeomagHeatmap.parse_state)
    (line : string) (t : Z) :
  let parts := split (strip line) in
  (4 <= length parts)%nat ->
  py_int (GeomagHeatmap.tok parts 0) = Some t ->
  GeomagHeatmap.tok parts 1 = "TYPE_WAYPOINT" ->
  (py_float (GeomagHeatmap.tok parts 2) = None \/
   py_float (GeomagHeatmap.tok parts 3) = None) ->
  GeomagHeatmap.parse_line py_int py_float st line = st.
Proof.
  intros parts Hlen Ht Htyp Hbad. unfold GeomagHeatmap.parse_line.
  destruct line as [|c line']; [reflexivity|].
  destruct (Ascii.eqb c "#"); [reflexivity|].
  fold parts.
  destruct (Nat.ltb_spec (length parts) 2); [lia|].
  unfold conv at 1. rewrite Ht, Htyp. cbn [String.eqb Ascii.eqb Bool.eqb andb].
  destruct (Nat.leb_spec 4 (length parts)); [|lia].
  unfold conv.
  destruct Hbad as [Hx|Hy].
  - rewrite Hx. reflexivity.
  - destruct (py_float (GeomagHeatmap.tok parts 2)); [|reflexivity].
    cbn [bind]. rewrite Hy. reflexivity.
Qed.

End BadLines.

Lemma geomagnetic_read_waypoints_raises_on_bad_line_witness :
  Geomagnetic._read_waypoints dec_int dec_float (1 # 20)
    (["10 TYPE_WAYPOINT 1.5 2"%string]
     ++ "1000 TYPE_WAYPOINT abc def"%string
     :: ["20 TYPE_WAYPOINT 3 4"%string])
  = Raise ValueError.
Proof.
  apply (geomagnetic_read_waypoints_raises_on_bad_line dec_int dec_float
           (1 # 20) ["10 TYPE_WAYPOINT 1.5 2"%string]
           ["20 TYPE_WAYPOINT 3 4"%string]
           "1000 TYPE_WAYPOINT abc def"%string
           [(10%Z, 15 # 10, 2)] ValueError).
  - vm_compute. reflexivity.
  - exists ["1000"; "TYPE_WAYPOINT"; "abc"; "def"]%string.
    repeat split; reflexivity.
Defined.

(** ** Weights (C5) *)

Section Percentiles.

(** The virtual index [(n-1) * (q/100)] of a percentile lies inside the
    array. *)
Lemma virtual_index_bounds (n : nat) (q : Q) :
  (1 <= n)%nat -> 0 <= q <= 100 ->
  0 <= inject_Z (Z.of_nat n - 1) * (q / 100) <= inject_Z (Z.of_nat n - 1).
Proof.
  intros Hn [Hq0 Hq1].
  assert (Hm : inject_Z 0 <= inject_Z (Z.of_nat n - 1))
    by (rewrite <- Zle_Qle; lia).
  change (inject_Z 0) with 0 in Hm.
  assert (Hu : 0 <= q / 100 <= 1).
  { split; [apply Qle_shift_div_l | apply Qle_shift_div_r]; lra. }
  split; nra.
Qed.

Lemma floor_index_bounds (n : nat) (q : Q) :
  (1 <= n)%nat -> 0 <= q <= 100 ->
  (0 <= Qfloor (inject_Z (Z.of_nat n - 1) * (q / 100)) <= Z.of_nat n - 1)%Z.
Proof.
  intros Hn Hq. destruct (virtual_index_bounds n q Hn Hq) as [H0 H1].
  split.
  - change 0%Z with (Qfloor (inject_Z 0)) at 1.
    rewrite Qfloor_Z at 1. rewrite <- (Qfloor_Z 0).
    apply Qfloor_resp_le. exact H0.
  - rewrite <- (Qfloor_Z (Z.of_nat n - 1)) at 2.
    apply Qfloor_resp_le. exact H1.
Qed.

Lemma ceiling_index_bounds (n : nat) (q : Q) :
  (1 <= n)%nat -> 0 <= q <= 100 ->
  (0 <= Qceiling (inject_Z (Z.of_nat n - 1) * (q / 100)) <= Z.of_nat n - 1)%Z.
Proof.
  intros Hn Hq. destruct (virtual_index_bounds n q Hn Hq) as [H0 H1].
  split.
  - rewrite <- (Qceiling_Z 0). apply Qceiling_resp_le. exact H0.
  - rewrite <- (Qceiling_Z (Z.of_nat n - 1)) at 2.
    apply Qceiling_resp_le. exact H1.
Qed.

Lemma insert_q_length (a : Q) (l : list Q) :
  length (insert_q a l) = S (length l).
Proof.
  induction l as [|b r IH]; cbn [insert_q]; [reflexivity|].
  destruct (Qle_bool a b); cbn [length]; [reflexivity | now rewrite IH].
Qed.

Lemma sorted_q_length (l : list Q) : length (sorted_q l) = length l.
Proof.
  induction l as [|a r IH]; [reflexivity|].
  unfold sorted_q in *. cbn [fold_right]. rewrite insert_q_length, IH.
  reflexivity.
Qed.



End Percentiles.

Section WaypointHeatmapWeights.

Import WaypointHeatmap.






End WaypointHeatmapWeights.

Section GeomagHeatmapWeights.

Import GeomagHeatmap.

Lemma list_item_in_range (l : list Q) (i : Z) :
  (0 <= i < Z.of_nat (length l))%Z ->
  list_item l i = Ok (nth (Z.to_nat i) l 0).
Proof.
  intros Hi. unfold list_item. cbv zeta.
  assert (Hb : (i <? 0)%Z = false) by (apply Z.ltb_ge; lia).
  rewrite Hb. cbv iota. rewrite Hb.
  destruct (nth_error l (Z.to_nat i)) as [a|] eqn:E.
  - f_equal. symmetry. now apply nth_error_nth.
  - apply nth_error_None in E. lia.
Qed.

(** [q(p)] on a non-empty sorted list and a percentile in range: a value of
    the closed form below, no [IndexError]. *)
Lemma quantile_value (vs : list Q) (p : Q) :
  vs <> [] -> 0 <= p <= 100 ->
  exists f c : nat,
    (f < length vs)%nat /\ (c < length vs)%nat /\
    (quantile vs p = Ok (nth f vs 0) \/
     exists g, quantile vs p = Ok (nth f vs 0 + (nth c vs 0 - nth f vs 0) * g)).
Proof.
  intros Hne Hp. unfold quantile.
  destruct vs as [|a r] eqn:E; [contradiction|]. rewrite <- E in *.
  assert (Hn : (1 <= length vs)%nat) by (rewrite E; cbn; lia).
  pose proof (floor_index_bounds (length vs) p Hn Hp) as Hf.
  pose proof (ceiling_index_bounds (length vs) p Hn Hp) as Hc.
  set (k := inject_Z (Z.of_nat (length vs) - 1) * (p / 100)) in *.
  exists (Z.to_nat (Qfloor k)), (Z.to_nat (Qceiling k)).
  split; [lia|]. split; [lia|].
  rewrite !list_item_in_range by lia.
  destruct (Qfloor k =? Qceiling k)%Z; [left; reflexivity|].
  right. cbn [bind]. eexists. reflexivity.
Qed.

Lemma robust_minmax_ordered (values : list Q) (q_low q_high : Q) :
  values <> [] -> 0 <= q_low <= 100 -> 0 <= q_high <= 100 ->
  exists lo hi, robust_minmax values q_low q_high = Ok (lo, hi) /\ lo < hi.
Proof.
  intros Hne Hl Hh. unfold robust_minmax.
  destruct values as [|a r] eqn:E; [contradiction|]. rewrite <- E in *.
  assert (Hs : sorted_q values <> []).
  { intros H. apply (f_equal (@length Q)) in H.
    rewrite sorted_q_length, E in H. discriminate H. }
  assert (Hlo : exists lo, quantile (sorted_q values) q_low = Ok lo).
  { destruct (quantile_value (sorted_q values) q_low Hs Hl)
      as (f & c & _ & _ & [H | [g H]]); eauto. }
  assert (Hhi : exists hi, quantile (sorted_q values) q_high = Ok hi).
  { destruct (quantile_value (sorted_q values) q_high Hs Hh)
      as (f & c & _ & _ & [H | [g H]]); eauto. }
  destruct Hlo as [lo ->]. destruct Hhi as [hi ->]. cbn [bind].
  destruct (Qle_bool hi lo) eqn:Ec.
  - exists lo, (lo + eps6). split; [reflexivity|]. unfold eps6. lra.
  - exists lo, hi. split; [reflexivity|].
    apply Qnot_le_lt. intros H. apply Qle_bool_iff in H. congruence.
Qed.

Lemma norm_unit (lo hi v : Q) :
  lo < hi -> exists w, norm lo hi v = Ok w /\ 0 <= w <= 1.
Proof.
  intros Hlt. unfold norm.
  assert (Hden : 0 < hi - lo + eps9) by (unfold eps9; lra).
  destruct (Qeq_bool (hi - lo + eps9) 0) eqn:E.
  { apply Qeq_bool_iff in E. lra. }
  eexists. split; [reflexivity|].
  assert (Hc : lo <= Qmax lo (Qmin hi v) <= hi).
  { split; [apply Q.le_max_l|].
    apply Q.max_lub; [lra | apply Q.le_min_l]. }
  split.
  - apply Qle_shift_div_l; [exact Hden | lra].
  - apply Qle_shift_div_r; [exact Hden | unfold eps9 in *; lra].
Qed.






End GeomagHeatmapWeights.





(** ** Percentiles and the cap on the number of rows (C6) *)

Section Subsample.

Import WaypointHeatmap.

(** The frame of [10.4waypoint_heatmap.py] just before the cap, for the rows
    [xyB_three] and the configured percentiles [(5, 95)]. *)
Lemma weighted_three :
  combine xyB_three (heat_weights (5, 95) (map row_B xyB_three))
  = [((1%Z, 0, 0, 0), 0 # 90000000); ((2%Z, 1, 0, 0), 0 # 90000000);
     ((3%Z, 2, 0, 100), 1)].
Proof. vm_compute. reflexivity. Qed.

(** C6 (evaluation).  [10.4waypoint_heatmap.py], three rows with the field
    values 0, 0, 100 and a cap of two rows: the weights come from the
    percentiles [(0, 90)] of all three values, and whichever two rows the
    sampler draws, the values that are rendered have other percentiles; the
    bounds are those of a population that is not the one on the map. *)
Theorem percentiles_precede_the_cap :
  forall sample : nat -> list (xyB_row * Q) -> list (xyB_row * Q),
    draws sample 2
      (combine xyB_three (heat_weights (5, 95) (map row_B xyB_three))) ->
    let rendered := heat_rows sample 2 (5, 95) xyB_three in
    length rendered = 2%nat /\
    same_bounds (heat_bounds (5, 95) (map row_B xyB_three)) (0, 90) /\
    ~ same_bounds (heat_bounds (5, 95) (map (fun r => row_B (fst r)) rendered))
                  (heat_bounds (5, 95) (map row_B xyB_three)).
Proof.
  intros sample [Hlen (rest & Hperm)] rendered. subst rendered.
  unfold heat_rows. rewrite weighted_three in *.
  cbn [length Nat.ltb Nat.leb].
  set (l := sample 2%nat _) in *.
  split; [exact Hlen|]. split; [vm_compute; split; reflexivity|].
  destruct l as [|a [|b [|c l']]]; try discriminate Hlen.
  assert (Ha : In a [((1%Z, 0, 0, 0), 0 # 90000000); ((2%Z, 1, 0, 0), 0 # 90000000);
                     ((3%Z, 2, 0, 100), 1)]).
  { eapply Permutation_in; [exact Hperm|]. left. reflexivity. }
  assert (Hb : In b [((1%Z, 0, 0, 0), 0 # 90000000); ((2%Z, 1, 0, 0), 0 # 90000000);
                     ((3%Z, 2, 0, 100), 1)]).
  { eapply Permutation_in; [exact Hperm|]. right. left. reflexivity. }
  cbn [In] in Ha, Hb.
  destruct Ha as [<- | [<- | [<- | []]]];
    destruct Hb as [<- | [<- | [<- | []]]];
    vm_compute; intros [H1 H2]; discriminate.
Qed.

Lemma percentiles_precede_the_cap_witness :
  let rendered := heat_rows (@firstn (xyB_row * Q)) 2 (5, 95) xyB_three in
  length rendered = 2%nat /\
  same_bounds (heat_bounds (5, 95) (map row_B xyB_three)) (0, 90) /\
  ~ same_bounds (heat_bounds (5, 95) (map (fun r => row_B (fst r)) rendered))
                (heat_bounds (5, 95) (map row_B xyB_three)).
Proof.
  apply (percentiles_precede_the_cap (@firstn (xyB_row * Q))).
  split; [reflexivity|].
  exists [((3%Z, 2, 0, 100), 1)]. vm_compute. apply Permutation_refl.
Defined.

(** The sibling in [geomagnetic.py]: the cap comes first, the rows that are
    rendered are the rows whose values enter the percentiles. *)
Lemma geomagnetic_percentiles_follow_the_cap
    (sample : nat -> list xyB_row -> list xyB_row) (HEAT_MAX_PTS : nat)
    (P : Q * Q) (xyB : list xyB_row) :
  map fst (Geomagnetic.heat_rows sample HEAT_MAX_PTS P xyB)
  = Geomagnetic.capped sample HEAT_MAX_PTS xyB.
Proof.
  unfold Geomagnetic.heat_rows.
  destruct (heat_bounds P (map row_B (Geomagnetic.capped sample HEAT_MAX_PTS xyB)))
    as [p_lo p_hi].
  rewrite map_map. cbn [fst]. apply map_id.
Qed.

End Subsample.

(** ** Skip mode inside the waypoint range *)

Section SkipMode.

Import GeomagHeatmap.

Variable ts : list Z.
Variables xs ys : list Q.

(** In skip mode every path through the loop body ends in the three trailing
    branches. *)
Lemma sample_pos_skip (j : nat) (t : Z) :
  sample_pos Skip ts xs ys j t = Ok (tail_branches Skip ts xs ys j t).
Proof.
  unfold sample_pos.
  destruct (j <? length ts - 1)%nat; [|reflexivity].
  destruct (_ && _)%bool; reflexivity.
Qed.

Lemma tail_branches_inside (mode : interp_mode) (j : nat) (t : Z) :
  (nth 0 ts 0 <= t <= last ts 0)%Z ->
  tail_branches mode ts xs ys j t = Some (nth j xs 0, nth j ys 0).
Proof.
  intros [H0 H1]. unfold tail_branches.
  destruct (Z.ltb_spec t (nth 0 ts 0%Z)); [lia|].
  destruct (Z.ltb_spec (last ts 0%Z) t); [lia|]. reflexivity.
Qed.

(** Skip mode never answers "no position" to a sample between the first and
    the last waypoint timestamp, bracketed or not. *)
Lemma skip_mode_never_skips_inside_range (times : list Z) :
  forall (j i : nat) (t : Z),
    nth_error times i = Some t ->
    (nth 0 ts 0 <= t <= last ts 0)%Z ->
    exists out p,
      pos_loop Skip ts xs ys j times = Ok out /\
      nth_error out i = Some (Some p).
Proof.
  induction times as [|t0 rest IH]; intros j i t Hi Hr;
    [destruct i; discriminate|].
  cbn [pos_loop]. rewrite sample_pos_skip. cbn [bind].
  destruct i as [|i]; cbn [nth_error] in Hi.
  - injection Hi as ->. rewrite tail_branches_inside by exact Hr.
    destruct (pos_loop_total ts xs ys Skip rest (advance ts j t))
      as (out & -> & _).
    cbn [bind]. eexists. eexists. split; reflexivity.
  - destruct (IH (advance ts j t0) i t Hi Hr) as (out & p & -> & Hp).
    cbn [bind]. eexists. exists p. split; [reflexivity | exact Hp].
Qed.

End SkipMode.

(* ====================================================================== *)
(** * Part III: further properties of the modelled code                    *)
(* ====================================================================== *)

(** ** The two-pointer interpolator: modes and edges *)

Section SweepModes.

Import GeomagHeatmap.

Variable ts : list Z.
Variables xs ys : list Q.

(** The sample at index [i] is answered by the loop body at some index [j']
    inside the waypoint list. *)
Lemma pos_loop_nth (mode : interp_mode) (times : list Z) :
  forall (j i : nat) (t : Z),
    (j < length ts)%nat ->
    nth_error times i = Some t ->
    exists out j' p,
      pos_loop mode ts xs ys j times = Ok out /\
      length out = length times /\
      (j' < length ts)%nat /\
      sample_pos mode ts xs ys j' t = Ok p /\
      nth_error out i = Some p.
Proof.
  induction times as [|t0 rest IH]; intros j i t Hj Hi;
    [destruct i; discriminate|].
  destruct (advance_spec ts t0 j) as (_ & _ & Hin & _). specialize (Hin Hj).
  cbn [pos_loop].
  destruct (sample_pos_total ts xs ys mode (advance ts j t0) t0) as [p0 Hp0].
  rewrite Hp0. cbn [bind].
  destruct i as [|i]; cbn [nth_error] in Hi.
  - injection Hi as ->.
    destruct (pos_loop_total ts xs ys mode rest (advance ts j t))
      as (out & -> & Hlen).
    cbn [bind]. exists (p0 :: out), (advance ts j t), p0.
    cbn [length nth_error]. auto.
  - destruct (IH (advance ts j t0) i t Hin Hi)
      as (out & j' & p & -> & Hlen & Hj' & Hp & Hnth).
    cbn [bind]. exists (p0 :: out), j', p. cbn [length nth_error]. auto.
Qed.

Lemma sample_pos_hold (j : nat) (t : Z) :
  exists p, sample_pos Hold ts xs ys j t = Ok (Some p).
Proof.
  unfold sample_pos, tail_branches. cbn [is_hold].
  destruct (j <? length ts - 1)%nat;
    [destruct (_ && _)%bool; [eauto|]|];
    destruct (t <? nth 0 ts 0)%Z; eauto;
    destruct (last ts 0%Z <? t)%Z; eauto.
Qed.

(** Inside the waypoint range skip mode and hold mode give the same
    answer. *)
Lemma sample_pos_skip_is_hold (j : nat) (t : Z) :
  (nth 0 ts 0 <= t <= last ts 0)%Z ->
  sample_pos Skip ts xs ys j t = sample_pos Hold ts xs ys j t.
Proof.
  intros Hr. rewrite sample_pos_skip.
  unfold sample_pos.
  rewrite !(tail_branches_inside ts xs ys _ j t Hr).
  destruct (j <? length ts - 1)%nat; [|reflexivity].
  destruct (_ && _)%bool; reflexivity.
Qed.

Lemma sorted_nth_le (l : list Z) :
  StronglySorted Z.le l ->
  forall a b, (a <= b < length l)%nat -> (nth a l 0 <= nth b l 0)%Z.
Proof.
  induction 1 as [|x r Hr IH Hx]; intros a b Hab; [cbn in Hab; lia|].
  cbn [length] in Hab. rewrite Forall_forall in Hx.
  destruct b as [|b]; [replace a with 0%nat by lia; lia|].
  destruct a as [|a]; cbn [nth].
  - apply Hx. apply nth_In. lia.
  - apply IH. lia.
Qed.

(** Sorted waypoints: a sample before the first waypoint or after the last
    one never enters the bracket, whatever the index. *)
Lemma sample_pos_before_first (mode : interp_mode) (j : nat) (t : Z) :
  StronglySorted Z.le ts -> (j < length ts)%nat ->
  (t < nth 0 ts 0)%Z ->
  sample_pos mode ts xs ys j t
  = Ok (if is_hold mode then Some (nth 0 xs 0, nth 0 ys 0) else None).
Proof.
  intros Hs Hj Ht.
  assert (H0 : (nth 0 ts 0 <= nth j ts 0)%Z) by (apply sorted_nth_le; [assumption | lia]).
  unfold sample_pos, tail_branches.
  destruct (Z.ltb_spec t (nth 0 ts 0%Z)) as [_|?]; [|lia].
  destruct (j <? length ts - 1)%nat; [|reflexivity].
  destruct (Z.leb_spec (nth j ts 0%Z) t); [lia|]. reflexivity.
Qed.

Lemma sample_pos_after_last (mode : interp_mode) (j : nat) (t : Z) :
  StronglySorted Z.le ts -> (j < length ts)%nat ->
  (last ts 0 < t)%Z ->
  sample_pos mode ts xs ys j t
  = Ok (if is_hold mode then Some (last xs 0, last ys 0) else None).
Proof.
  intros Hs Hj Ht. rewrite last_as_nth in Ht.
  assert (H0 : (nth 0 ts 0 <= nth (length ts - 1) ts 0)%Z)
    by (apply sorted_nth_le; [assumption | lia]).
  unfold sample_pos, tail_branches.
  destruct (Z.ltb_spec t (nth 0 ts 0%Z)); [lia|].
  rewrite last_as_nth.
  destruct (Z.ltb_spec (nth (length ts - 1) ts 0%Z) t) as [_|?]; [|lia].
  destruct (Nat.ltb_spec j (length ts - 1)) as [Hlt|_]; [|reflexivity].
  assert (H1 : (nth (j + 1) ts 0 <= nth (length ts - 1) ts 0)%Z)
    by (apply sorted_nth_le; [assumption | lia]).
  destruct (Z.leb_spec t (nth (j + 1) ts 0%Z)); [lia|].
  rewrite andb_false_r. reflexivity.
Qed.

End SweepModes.

Section SweepSorted.

Import GeomagHeatmap.

Variable ts : list Z.
Variables xs ys : list Q.

(** Ascending sample times: the index that answers the sample at position
    [i] is where the [while] loop stops for that sample, on a timestamp
    [<= t] unless it is still [0]. *)
Lemma pos_loop_sorted_nth (mode : interp_mode) (times : list Z) :
  forall (j i : nat) (t : Z),
    StronglySorted Z.le times ->
    (j < length ts)%nat ->
    (forall t', In t' times -> j = 0%nat \/ (nth j ts 0 <= t')%Z) ->
    nth_error times i = Some t ->
    exists out j' p,
      pos_loop mode ts xs ys j times = Ok out /\
      (j' < length ts)%nat /\
      (j' = 0%nat \/ (nth j' ts 0 <= t)%Z) /\
      ~ ((j' + 1 < length ts)%nat /\ (nth (j' + 1) ts 0 <= t)%Z) /\
      sample_pos mode ts xs ys j' t = Ok p /\
      nth_error out i = Some p.
Proof.
  induction times as [|t0 rest IH]; intros j i t Hsorted Hj Hbelow Hi;
    [destruct i; discriminate|].
  apply StronglySorted_inv in Hsorted. destruct Hsorted as [Hrest Hall].
  rewrite Forall_forall in Hall.
  destruct (advance_spec ts t0 j) as (Hle & Hmoved & Hin & Hexit).
  specialize (Hin Hj). cbv zeta in *.
  set (j1 := advance ts j t0) in *.
  assert (Hbelow1 : forall t', In t' (t0 :: rest) ->
                               j1 = 0%nat \/ (nth j1 ts 0 <= t')%Z).
  { intros t' Ht'. destruct Hmoved as [E | Hm].
    - rewrite E. apply Hbelow. exact Ht'.
    - right. destruct Ht' as [<- | Ht']; [exact Hm|].
      specialize (Hall _ Ht'). lia. }
  cbn [pos_loop]. fold j1.
  destruct (sample_pos_total ts xs ys mode j1 t0) as [p0 Hp0].
  rewrite Hp0. cbn [bind].
  destruct i as [|i]; cbn [nth_error] in Hi.
  - injection Hi as ->.
    destruct (pos_loop_total ts xs ys mode rest j1) as (out & -> & _).
    cbn [bind]. exists (p0 :: out), j1, p0. cbn [nth_error].
    split; [reflexivity|]. split; [exact Hin|].
    split; [apply Hbelow1; left; reflexivity|].
    split; [exact Hexit|]. split; [exact Hp0 | reflexivity].
  - destruct (IH j1 i t Hrest Hin
                (fun t' Ht' => Hbelow1 t' (or_intror Ht')) Hi)
      as (out & j' & p & -> & Hj' & Hb & Hex & Hp & Hnth).
    cbn [bind]. exists (p0 :: out), j', p. cbn [nth_error].
    split; [reflexivity|]. split; [exact Hj'|]. split; [exact Hb|].
    split; [exact Hex|]. split; [exact Hp | exact Hnth].
Qed.

(** On a waypoint timestamp, with strictly increasing waypoint timestamps,
    the loop body returns the position of that waypoint in every mode. *)
Lemma sample_pos_on_waypoint (mode : interp_mode) (k : nat) :
  StronglySorted Z.lt ts -> (k < length ts)%nat ->
  exists x y,
    sample_pos mode ts xs ys k (nth k ts 0%Z) = Ok (Some (x, y)) /\
    x == nth k xs 0 /\ y == nth k ys 0.
Proof.
  intros Hs Hk.
  assert (H0 : (nth 0 ts 0 <= nth k ts 0)%Z).
  { destruct k; [lia|]. apply Z.lt_le_incl.
    apply strictly_sorted_nth; [assumption | lia]. }
  assert (Hl : (nth k ts 0 <= last ts 0)%Z).
  { rewrite last_as_nth.
    destruct (Nat.eq_dec k (length ts - 1)) as [->|]; [lia|].
    apply Z.lt_le_incl. apply strictly_sorted_nth; [assumption | lia]. }
  assert (Htail : tail_branches mode ts xs ys k (nth k ts 0%Z)
                  = Some (nth k xs 0, nth k ys 0))
    by (apply tail_branches_inside; lia).
  unfold sample_pos. rewrite Htail.
  destruct (Nat.ltb_spec k (length ts - 1)) as [Hlt|_];
    [|eexists; eexists; split; [reflexivity | split; reflexivity]].
  assert (H1 : (nth k ts 0 < nth (k + 1) ts 0)%Z)
    by (apply strictly_sorted_nth; [assumption | lia]).
  destruct (Z.leb_spec (nth k ts 0%Z) (nth k ts 0%Z)) as [_|?]; [|lia].
  destruct (Z.leb_spec (nth k ts 0%Z) (nth (k + 1) ts 0%Z)) as [_|?]; [|lia].
  cbn [andb].
  destruct mode;
    try (eexists; eexists; split; [reflexivity | split; reflexivity]).
  unfold truediv. rewrite Z.max_r by lia.
  destruct (Z.eqb_spec (nth (k + 1) ts 0 - nth k ts 0) 0)%Z; [lia|].
  cbn [bind]. eexists. eexists. split; [reflexivity|].
  rewrite Z.sub_diag.
  assert (Hr : inject_Z 0 / inject_Z (nth (k + 1) ts 0%Z - nth k ts 0%Z) == 0).
  { unfold Qdiv. change (inject_Z 0) with 0. ring. }
  split; rewrite Hr; ring.
Qed.

End SweepSorted.

Section InterpolatorExtras.

Import GeomagHeatmap.

Lemma last_map_wp (f : waypoint -> Z) (l : list waypoint) :
  l <> [] -> last (map f l) 0%Z = f (last l wp0).
Proof.
  induction l as [|a [|b r] IH]; intros Hne; [contradiction | reflexivity |].
  change (last (map f (a :: b :: r)) 0%Z) with (last (map f (b :: r)) 0%Z).
  change (last (a :: b :: r) wp0) with (last (b :: r) wp0).
  apply IH. discriminate.
Qed.

Lemma last_map_wq (f : waypoint -> Q) (l : list waypoint) :
  l <> [] -> last (map f l) 0 = f (last l wp0).
Proof.
  induction l as [|a [|b r] IH]; intros Hne; [contradiction | reflexivity |].
  change (last (map f (a :: b :: r)) 0) with (last (map f (b :: r)) 0).
  change (last (a :: b :: r) wp0) with (last (b :: r) wp0).
  apply IH. discriminate.
Qed.

(** X1.  [interpolate_pos_for_times] never raises, in any mode and on any
    input (the guard [max(1, t1 - t0)] keeps the division defined), and it
    returns exactly one entry per sample time; without waypoints every entry
    is "no position". *)
Theorem interpolate_pos_one_entry_per_sample :
  forall (waypoints : list waypoint) (times : list Z) (mode : interp_mode),
    exists out,
      interpolate_pos_for_times waypoints times mode = Ok out /\
      length out = length times /\
      (waypoints = [] -> Forall (fun p => p = None) out).
Proof.
  intros waypoints times mode. destruct waypoints as [|w ws].
  - exists (repeat None (length times)). cbn [interpolate_pos_for_times].
    split; [reflexivity|]. split; [apply repeat_length|].
    intros _. apply Forall_forall. intros p Hp. now apply repeat_spec in Hp.
  - cbn [interpolate_pos_for_times].
    destruct (pos_loop_total (map wp_t (w :: ws)) (map wp_x (w :: ws))
                (map wp_y (w :: ws)) mode times 0) as (out & Hout & Hlen).
    exists out. split; [exact Hout|]. split; [exact Hlen | discriminate].
Qed.

(** X2.  Hold mode with at least one waypoint: every sample gets a
    position, before the first waypoint, after the last one and in
    between. *)
Theorem hold_mode_positions_every_sample :
  forall (waypoints : list waypoint) (times : list Z) (i : nat) (t : Z),
    waypoints <> [] ->
    nth_error times i = Some t ->
    exists out p,
      interpolate_pos_for_times waypoints times Hold = Ok out /\
      nth_error out i = Some (Some p).
Proof.
  intros waypoints times i t Hne Hi.
  rewrite interpolate_pos_for_times_cons by exact Hne.
  destruct (pos_loop_nth (map wp_t waypoints) (map wp_x waypoints)
              (map wp_y waypoints) Hold times 0 i t)
    as (out & j' & p & Hout & _ & _ & Hp & Hnth); auto.
  { rewrite length_map. destruct waypoints; [contradiction | cbn; lia]. }
  destruct (sample_pos_hold (map wp_t waypoints) (map wp_x waypoints)
              (map wp_y waypoints) j' t) as [q Hq].
  rewrite Hq in Hp. injection Hp as <-.
  exists out, q. split; assumption.
Qed.

Lemma hold_mode_positions_every_sample_witness :
  exists out p,
    interpolate_pos_for_times [(1000%Z, 0, 0); (2000%Z, 10, 0)]
      [500%Z; 1500%Z; 2500%Z] Hold = Ok out /\
    nth_error out 2 = Some (Some p).
Proof.
  apply (hold_mode_positions_every_sample
           [(1000%Z, 0, 0); (2000%Z, 10, 0)] [500%Z; 1500%Z; 2500%Z] 2 2500%Z).
  - discriminate.
  - reflexivity.
Defined.

(** X3.  Waypoints sorted by timestamp: a sample earlier than the first
    waypoint gets the first waypoint's position in hold mode and no position
    in linear and skip mode; a sample later than the last waypoint gets the
    last waypoint's position in hold mode and no position otherwise.  The
    order of the sample times does not matter. *)
Theorem samples_outside_the_waypoint_range :
  forall (waypoints : list waypoint) (times : list Z) (mode : interp_mode)
         (i : nat) (t : Z),
    Sorted Z.le (map wp_t waypoints) ->
    waypoints <> [] ->
    nth_error times i = Some t ->
    let first := nth 0 waypoints wp0 in
    let final := last waypoints wp0 in
    exists out,
      interpolate_pos_for_times waypoints times mode = Ok out /\
      ((t < wp_t first)%Z ->
       nth_error out i
       = Some (if is_hold mode then Some (wp_x first, wp_y first) else None)) /\
      ((wp_t final < t)%Z ->
       nth_error out i
       = Some (if is_hold mode then Some (wp_x final, wp_y final) else None)).
Proof.
  intros waypoints times mode i t Hs Hne Hi first final.
  assert (Hss : StronglySorted Z.le (map wp_t waypoints)).
  { apply Sorted_StronglySorted; [|exact Hs]. intros a b c. apply Z.le_trans. }
  rewrite interpolate_pos_for_times_cons by exact Hne.
  destruct (pos_loop_nth (map wp_t waypoints) (map wp_x waypoints)
              (map wp_y waypoints) mode times 0 i t)
    as (out & j' & p & Hout & _ & Hj' & Hp & Hnth); auto.
  { rewrite length_map. destruct waypoints; [contradiction | cbn; lia]. }
  exists out. split; [exact Hout|]. split; intros Ht.
  - rewrite sample_pos_before_first in Hp; auto.
    + injection Hp as <-. rewrite Hnth.
      rewrite nth_map_wp_x, nth_map_wp_y. reflexivity.
    + rewrite nth_map_wp_t. exact Ht.
  - rewrite sample_pos_after_last in Hp; auto.
    + injection Hp as <-. rewrite Hnth.
      rewrite !last_map_wq by exact Hne. reflexivity.
    + rewrite last_map_wp by exact Hne. exact Ht.
Qed.

Lemma samples_outside_the_waypoint_range_witness :
  exists out,
    interpolate_pos_for_times [(1000%Z, 0, 0); (2000%Z, 10, 0)]
      [2500%Z; 500%Z] Linear = Ok out /\
    ((500 < 1000)%Z -> nth_error out 1 = Some None) /\
    ((2000 < 500)%Z -> nth_error out 1 = Some None).
Proof.
  apply (samples_outside_the_waypoint_range
           [(1000%Z, 0, 0); (2000%Z, 10, 0)] [2500%Z; 500%Z] Linear 1 500%Z).
  - repeat constructor. vm_compute. discriminate.
  - discriminate.
  - reflexivity.
Defined.

(** X4.  Strictly increasing waypoint timestamps and ascending sample times:
    a sample that falls exactly on the timestamp of a waypoint gets the
    position of that waypoint, in every mode, the first and the last waypoint
    included. *)
Theorem sample_on_a_waypoint_gets_its_position :
  forall (waypoints : list waypoint) (times : list Z) (mode : interp_mode)
         (i k : nat) (w : waypoint),
    Sorted Z.lt (map wp_t waypoints) ->
    Sorted Z.le times ->
    nth_error waypoints k = Some w ->
    nth_error times i = Some (wp_t w) ->
    exists out x y,
      interpolate_pos_for_times waypoints times mode = Ok out /\
      nth_error out i = Some (Some (x, y)) /\
      x == wp_x w /\ y == wp_y w.
Proof.
  intros waypoints times mode i k w Hwp Htimes Hk Hi.
  assert (Hlt : StronglySorted Z.lt (map wp_t waypoints)).
  { apply Sorted_StronglySorted; [|exact Hwp]. intros a b c. apply Z.lt_trans. }
  assert (Hle : StronglySorted Z.le times).
  { apply Sorted_StronglySorted; [|exact Htimes]. intros a b c. apply Z.le_trans. }
  assert (Hkl : (k < length waypoints)%nat) by (apply nth_error_Some; congruence).
  assert (Ew : nth k waypoints wp0 = w) by (now apply nth_error_nth).
  rewrite interpolate_pos_for_times_cons
    by (intros ->; cbn in Hkl; lia).
  set (ts := map wp_t waypoints) in *.
  destruct (pos_loop_sorted_nth ts (map wp_x waypoints) (map wp_y waypoints)
              mode times 0 i (wp_t w) Hle)
    as (out & j' & p & Hout & Hj' & Hb & Hex & Hp & Hnth); auto.
  { unfold ts. rewrite length_map. lia. }
  assert (Etk : nth k ts 0%Z = wp_t w) by (unfold ts; rewrite nth_map_wp_t, Ew; reflexivity).
  assert (Hlen : length ts = length waypoints) by (unfold ts; apply length_map).
  assert (Ej : j' = k).
  { destruct (Nat.lt_trichotomy j' k) as [Hc | [Hc | Hc]]; [|exact Hc|]; exfalso.
    - apply Hex. split; [lia|]. rewrite <- Etk.
      destruct (Nat.eq_dec (j' + 1) k) as [->|]; [lia|].
      apply Z.lt_le_incl. apply strictly_sorted_nth; [exact Hlt | lia].
    - assert (nth k ts 0 < nth j' ts 0)%Z
        by (apply strictly_sorted_nth; [exact Hlt | lia]).
      destruct Hb as [-> | Hb]; lia. }
  subst j'. rewrite <- Etk in Hp.
  destruct (sample_pos_on_waypoint ts (map wp_x waypoints) (map wp_y waypoints)
              mode k Hlt ltac:(lia)) as (x & y & Hxy & Hx & Hy).
  rewrite Hxy in Hp. injection Hp as <-.
  exists out, x, y. split; [exact Hout|]. split; [exact Hnth|].
  rewrite nth_map_wp_x, Ew in Hx. rewrite nth_map_wp_y, Ew in Hy.
  split; assumption.
Qed.

Lemma sample_on_a_waypoint_gets_its_position_witness :
  exists out x y,
    interpolate_pos_for_times [(1000%Z, 0, 0); (2000%Z, 10, 4)]
      [1000%Z; 2000%Z] Linear = Ok out /\
    nth_error out 1 = Some (Some (x, y)) /\
    x == 10 /\ y == 4.
Proof.
  apply (sample_on_a_waypoint_gets_its_position
           [(1000%Z, 0, 0); (2000%Z, 10, 4)] [1000%Z; 2000%Z] Linear 1 1
           (2000%Z, 10, 4)).
  - repeat constructor.
  - repeat constructor. vm_compute. discriminate.
  - reflexivity.
  - reflexivity.
Defined.

End InterpolatorExtras.

Section SkipIsHold.

Import GeomagHeatmap.

Lemma pos_loop_skip_is_hold (ts : list Z) (xs ys : list Q) (times : list Z) :
  forall (j i : nat) (t : Z),
    nth_error times i = Some t ->
    (nth 0 ts 0 <= t <= last ts 0)%Z ->
    exists o1 o2 p,
      pos_loop Skip ts xs ys j times = Ok o1 /\
      pos_loop Hold ts xs ys j times = Ok o2 /\
      nth_error o1 i = Some (Some p) /\
      nth_error o2 i = Some (Some p).
Proof.
  induction times as [|t0 rest IH]; intros j i t Hi Hr;
    [destruct i; discriminate|].
  cbn [pos_loop].
  destruct i as [|i]; cbn [nth_error] in Hi.
  - injection Hi as ->.
    rewrite (sample_pos_skip_is_hold ts xs ys (advance ts j t) t Hr).
    destruct (sample_pos_hold ts xs ys (advance ts j t) t) as [p ->].
    destruct (pos_loop_total ts xs ys Skip rest (advance ts j t))
      as (o1 & -> & _).
    destruct (pos_loop_total ts xs ys Hold rest (advance ts j t))
      as (o2 & -> & _).
    cbn [bind]. exists (Some p :: o1), (Some p :: o2), p.
    repeat split; reflexivity.
  - destruct (IH (advance ts j t0) i t Hi Hr)
      as (o1 & o2 & p & -> & -> & H1 & H2).
    destruct (sample_pos_total ts xs ys Skip (advance ts j t0) t0) as [p1 ->].
    destruct (sample_pos_total ts xs ys Hold (advance ts j t0) t0) as [p2 ->].
    cbn [bind]. exists (p1 :: o1), (p2 :: o2), p.
    repeat split; assumption.
Qed.

(** X5.  For a sample between the first and the last waypoint timestamp
    (bounds included) skip mode returns what hold mode returns, a position:
    skip mode leaves out only the samples outside the waypoint range. *)
Theorem skip_mode_equals_hold_mode_inside_range :
  forall (waypoints : list waypoint) (times : list Z) (i : nat) (t : Z),
    nth_error times i = Some t ->
    (wp_t (nth 0 waypoints wp0) <= t <= wp_t (last waypoints wp0))%Z ->
    waypoints <> [] ->
    exists o1 o2 p,
      interpolate_pos_for_times waypoints times Skip = Ok o1 /\
      interpolate_pos_for_times waypoints times Hold = Ok o2 /\
      nth_error o1 i = Some (Some p) /\
      nth_error o2 i = Some (Some p).
Proof.
  intros waypoints times i t Hi Hr Hne.
  rewrite !interpolate_pos_for_times_cons by exact Hne.
  apply (pos_loop_skip_is_hold _ _ _ times 0 i t Hi).
  rewrite nth_map_wp_t, last_map_wp by exact Hne. exact Hr.
Qed.

Lemma skip_mode_equals_hold_mode_inside_range_witness :
  exists o1 o2 p,
    interpolate_pos_for_times [(1000%Z, 0, 0); (2000%Z, 10, 0)] [1500%Z] Skip
      = Ok o1 /\
    interpolate_pos_for_times [(1000%Z, 0, 0); (2000%Z, 10, 0)] [1500%Z] Hold
      = Ok o2 /\
    nth_error o1 0 = Some (Some p) /\
    nth_error o2 0 = Some (Some p).
Proof.
  apply (skip_mode_equals_hold_mode_inside_range
           [(1000%Z, 0, 0); (2000%Z, 10, 0)] [1500%Z] 0 1500%Z).
  - reflexivity.
  - vm_compute. split; discriminate.
  - discriminate.
Defined.

End SkipIsHold.

(** ** The merge_asof interpolator: order and bounds *)

Section MergeAsofExtras.

Import WaypointHeatmap.

(** X6.  Every row of [interpolate_magnetic_to_xy] lies between two
    waypoints of the input, one not later and one not earlier than the
    sample, coordinate by coordinate. *)
Theorem merge_asof_rows_are_bounded :
  forall (mf : list mag_sample) (wp : list waypoint) (r : xyB_row),
    In r (interpolate_magnetic_to_xy mf wp) ->
    exists w0 w1,
      In w0 wp /\ In w1 wp /\
      (wp_t w0 <= row_ts r <= wp_t w1)%Z /\
      (Qmin (wp_x w0) (wp_x w1) <= row_x r <= Qmax (wp_x w0) (wp_x w1)) /\
      (Qmin (wp_y w0) (wp_y w1) <= row_y r <= Qmax (wp_y w0) (wp_y w1)).
Proof.
  intros mf wp r Hr.
  apply interpolate_magnetic_to_xy_rows in Hr.
  destruct Hr as (_ & _ & m & p & n & Hm & Ep & En & Hlt & Hrow).
  pose proof (sort_by_sorted wp_t wp) as Hs.
  destruct (asof_backward_spec _ _ _ Hs Ep) as (Hp & Hpt & _).
  destruct (asof_forward_spec _ _ _ Hs En) as (Hn & Hnt & _).
  apply sort_by_In in Hp, Hn.
  destruct m as [ts B]. cbn [interp_row] in Hrow. injection Hrow as <-.
  cbn [fst] in *. unfold row_ts, row_x, row_y. cbn [fst snd].
  exists p, n. split; [exact Hp|]. split; [exact Hn|]. split; [lia|].
  assert (Hr : 0 <= inject_Z (ts - wp_t p) / inject_Z (wp_t n - wp_t p) <= 1)
    by (apply ratio_unit; lia).
  set (u := inject_Z (ts - wp_t p) / inject_Z (wp_t n - wp_t p)) in *.
  pose proof (convex_between (wp_x p) (wp_x n) u Hr) as Hx.
  pose proof (convex_between (wp_y p) (wp_y n) u Hr) as Hy.
  split; split; lra.
Qed.

Lemma merge_asof_rows_are_bounded_witness :
  exists w0 w1,
    In w0 [(1000%Z, 0, 0); (2000%Z, 10, 0)] /\
    In w1 [(1000%Z, 0, 0); (2000%Z, 10, 0)] /\
    (wp_t w0 <= 1500 <= wp_t w1)%Z /\
    (Qmin (wp_x w0) (wp_x w1) <= 5000 # 1000 <= Qmax (wp_x w0) (wp_x w1)) /\
    (Qmin (wp_y w0) (wp_y w1) <= 0 # 1000 <= Qmax (wp_y w0) (wp_y w1)).
Proof.
  apply (merge_asof_rows_are_bounded
           [(1500%Z, 7); (1000%Z, 8)] [(1000%Z, 0, 0); (2000%Z, 10, 0)]
           (1500%Z, 5000 # 1000, 0 # 1000, 7)).
  vm_compute. left. reflexivity.
Defined.

End MergeAsofExtras.

Section MergeAsofComplete.

Import WaypointHeatmap.

Lemma asof_backward_some (t : Z) (wp : list waypoint) (w : waypoint) :
  StronglySorted (key_le wp_t) wp ->
  In w wp -> (wp_t w <= t)%Z ->
  exists p, asof_backward t wp = Some p.
Proof.
  intros Hs Hw Hwt. destruct wp as [|a r]; [contradiction|].
  apply StronglySorted_inv in Hs. destruct Hs as [_ Ha].
  rewrite Forall_forall in Ha. unfold key_le in Ha.
  cbn [asof_backward].
  assert (wp_t a <= t)%Z.
  { destruct Hw as [<- | Hw]; [exact Hwt|]. specialize (Ha _ Hw). lia. }
  destruct (Z.leb_spec (wp_t a) t); [|lia].
  destruct (asof_backward t r); eauto.
Qed.

Lemma asof_forward_some (t : Z) (wp : list waypoint) (w : waypoint) :
  In w wp -> (t <= wp_t w)%Z ->
  exists n, asof_forward t wp = Some n.
Proof.
  induction wp as [|a r IH]; intros Hw Hwt; [contradiction|].
  cbn [asof_forward].
  destruct (Z.leb_spec t (wp_t a)); [eauto|].
  destruct Hw as [<- | Hw]; [lia|]. now apply IH.
Qed.

(** X7.  The converse of the exclusion rule: a sample whose timestamp is the
    timestamp of no waypoint and has a waypoint before it and a waypoint
    after it always leaves a row, carrying the sample's timestamp and field
    value, whatever the order of the two input frames and whether or not
    waypoint timestamps repeat. *)
Theorem merge_asof_keeps_samples_between_waypoints :
  forall (mf : list mag_sample) (wp : list waypoint) (t : Z) (B : Q)
         (w0 w1 : waypoint),
    In (t, B) mf ->
    In w0 wp -> In w1 wp ->
    (wp_t w0 < t < wp_t w1)%Z ->
    (forall w, In w wp -> wp_t w <> t) ->
    exists x y, In (t, x, y, B) (interpolate_magnetic_to_xy mf wp).
Proof.
  intros mf wp t B w0 w1 Hm H0 H1 Ht Hno.
  pose proof (sort_by_sorted wp_t wp) as Hs.
  destruct (asof_backward_some t (sort_by wp_t wp) w0 Hs) as [p Ep];
    [apply sort_by_In; exact H0 | lia |].
  destruct (asof_forward_some t (sort_by wp_t wp) w1) as [n En];
    [apply sort_by_In; exact H1 | lia |].
  destruct (asof_backward_spec _ _ _ Hs Ep) as (Hp & Hpt & _).
  destruct (asof_forward_spec _ _ _ Hs En) as (Hn & Hnt & _).
  apply sort_by_In in Hp, Hn.
  pose proof (Hno p Hp). pose proof (Hno n Hn).
  eexists. eexists. apply interpolate_magnetic_to_xy_rows.
  split; [intros ->; contradiction|].
  split.
  { destruct wp as [|a [|b r]]; cbn [length]; try lia; try contradiction.
    destruct H0 as [<- | []]. destruct H1 as [<- | []]. lia. }
  exists (t, B), p, n. cbn [fst].
  split; [exact Hm|]. split; [exact Ep|]. split; [exact En|].
  split; [lia | reflexivity].
Qed.

Lemma merge_asof_keeps_samples_between_waypoints_witness :
  exists x y,
    In (1500%Z, x, y, 7)
       (interpolate_magnetic_to_xy [(1500%Z, 7); (1000%Z, 8)]
          [(2000%Z, 10, 0); (1000%Z, 0, 0)]).
Proof.
  apply (merge_asof_keeps_samples_between_waypoints
           [(1500%Z, 7); (1000%Z, 8)] [(2000%Z, 10, 0); (1000%Z, 0, 0)]
           1500%Z 7 (1000%Z, 0, 0) (2000%Z, 10, 0)).
  - left. reflexivity.
  - right. left. reflexivity.
  - left. reflexivity.
  - vm_compute. split; reflexivity.
  - intros w [<- | [<- | []]]; vm_compute; discriminate.
Defined.

(** The rows built from a frame of samples sorted by timestamp. *)
Lemma joined_rows_sorted (wp : list waypoint) (mf : list mag_sample) :
  StronglySorted (key_le (fun m : mag_sample => fst m)) mf ->
  let rows :=
    flat_map (fun z => some_list (interp_row z))
      (filter keep_row
         (map (fun m => (m, asof_backward (fst m) wp, asof_forward (fst m) wp)) mf)) in
  StronglySorted (key_le row_ts) rows /\
  (length rows <= length mf)%nat /\
  Forall (fun r => exists m, In m mf /\ row_ts r = fst m) rows.
Proof.
  induction 1 as [|m mf Hs IH Hm]; cbv zeta; cbn [map filter]; cbv beta.
  - cbn [flat_map]. repeat split; constructor.
  - cbv zeta in IH. destruct IH as (IH1 & IH2 & IH3).
    set (rest :=
           flat_map (fun z => some_list (interp_row z))
             (filter keep_row
                (map (fun m0 => (m0, asof_backward (fst m0) wp,
                                 asof_forward (fst m0) wp)) mf))) in *.
    assert (Hrest : Forall (fun r => exists m', In m' (m :: mf)
                                                /\ row_ts r = fst m') rest).
    { eapply Forall_impl; [|exact IH3].
      intros r (m' & Hin & E). exists m'. split; [right; exact Hin | exact E]. }
    match goal with
    | |- context [if ?c then _ else _] => destruct c eqn:Ek
    end.
    + cbn [flat_map]. fold rest.
      unfold keep_row in Ek.
      destruct (asof_backward (fst m) wp) as [p|]; [|discriminate].
      destruct (asof_forward (fst m) wp) as [n|]; [|discriminate].
      destruct m as [ts B]. cbn [interp_row some_list app].
      split; [|split].
      * constructor; [exact IH1|].
        rewrite Forall_forall in Hm, IH3 |- *. intros r Hr.
        destruct (IH3 r Hr) as (m' & Hin & E).
        specialize (Hm m' Hin). unfold key_le in *. rewrite E.
        unfold row_ts. cbn [fst] in *. exact Hm.
      * cbn [length]. lia.
      * constructor; [|exact Hrest].
        exists (ts, B). split; [left; reflexivity | reflexivity].
    + fold rest. split; [exact IH1|]. split; [cbn [length]; lia | exact Hrest].
Qed.

(** X8.  The rows of [interpolate_magnetic_to_xy] come out in ascending
    order of timestamp, whatever the order of the input, and there is at
    most one row per sample. *)
Theorem merge_asof_rows_ascending :
  forall (mf : list mag_sample) (wp : list waypoint),
    StronglySorted (key_le row_ts) (interpolate_magnetic_to_xy mf wp) /\
    (length (interpolate_magnetic_to_xy mf wp) <= length mf)%nat.
Proof.
  intros mf wp. unfold interpolate_magnetic_to_xy.
  destruct (_ || _)%bool; [split; [constructor | cbn; lia]|].
  rewrite combine_map_same.
  destruct (joined_rows_sorted (sort_by wp_t wp)
              (sort_by (fun m : mag_sample => fst m) mf)
              (sort_by_sorted _ mf)) as (H1 & H2 & _).
  split; [exact H1|].
  rewrite (Permutation_length (sort_by_perm (fun m : mag_sample => fst m) mf)) in H2.
  exact H2.
Qed.

End MergeAsofComplete.

(** ** The waypoint readers: order, snapping, ignored lines *)

Section Snapping.

Import WaypointHeatmap.

Variable snap : Q.

Lemma cell_seen_iff (k : Z * Z) (seen : list (Z * Z)) :
  existsb (fun k' => (fst k =? fst k')%Z && (snd k =? snd k')%Z)%bool seen = true
  <-> In k seen.
Proof.
  rewrite existsb_exists. split.
  - intros (k' & Hin & H). apply andb_true_iff in H. destruct H as [H1 H2].
    apply Z.eqb_eq in H1, H2. destruct k, k'. cbn [fst snd] in *.
    subst. exact Hin.
  - intros H. exists k. split; [exact H|]. now rewrite !Z.eqb_refl.
Qed.

Lemma drop_duplicates_cons (seen : list (Z * Z)) (a : waypoint)
    (r : list waypoint) :
  drop_duplicates snap seen (a :: r)
  = if existsb (fun k' => (fst (grid_cell snap a) =? fst k')%Z
                          && (snd (grid_cell snap a) =? snd k')%Z)%bool seen
    then drop_duplicates snap seen r
    else a :: drop_duplicates snap (grid_cell snap a :: seen) r.
Proof. reflexivity. Qed.

Lemma drop_duplicates_spec (rows : list waypoint) :
  forall (seen : list (Z * Z)) (w : waypoint),
    In w (drop_duplicates snap seen rows) ->
    In w rows /\ ~ In (grid_cell snap w) seen.
Proof.
  induction rows as [|a r IH]; intros seen w Hw; [contradiction|].
  rewrite drop_duplicates_cons in Hw.
  destruct (existsb _ seen) eqn:E.
  - destruct (IH seen w Hw) as [H1 H2]. split; [right; exact H1 | exact H2].
  - destruct Hw as [<- | Hw].
    + split; [left; reflexivity|]. intros H. apply cell_seen_iff in H.
      congruence.
    + destruct (IH _ w Hw) as [H1 H2]. split; [right; exact H1|].
      intros H. apply H2. right. exact H.
Qed.

Lemma drop_duplicates_nodup (rows : list waypoint) :
  forall seen : list (Z * Z),
    NoDup (map (grid_cell snap) (drop_duplicates snap seen rows)).
Proof.
  induction rows as [|a r IH]; intros seen; [constructor|].
  rewrite drop_duplicates_cons.
  destruct (existsb _ seen); [apply IH|].
  cbn [map]. constructor; [|apply IH].
  intros H. apply in_map_iff in H. destruct H as (w & E & Hw).
  apply drop_duplicates_spec in Hw. destruct Hw as [_ Hw].
  apply Hw. left. symmetry. exact E.
Qed.

Lemma drop_duplicates_cover (rows : list waypoint) :
  forall (seen : list (Z * Z)) (w : waypoint),
    In w rows ->
    In (grid_cell snap w) seen \/
    exists w', In w' (drop_duplicates snap seen rows) /\
               grid_cell snap w' = grid_cell snap w.
Proof.
  induction rows as [|a r IH]; intros seen w Hw; [contradiction|].
  rewrite drop_duplicates_cons.
  destruct (existsb _ seen) eqn:E.
  - destruct Hw as [<- | Hw]; [left; now apply cell_seen_iff|].
    apply IH. exact Hw.
  - destruct Hw as [<- | Hw];
      [right; exists a; split; [left; reflexivity | reflexivity]|].
    destruct (IH (grid_cell snap a :: seen) w Hw) as [[E' | H] | (w' & H1 & H2)].
    + right. exists a. split; [left; reflexivity | exact E'].
    + left. exact H.
    + right. exists w'. split; [right; exact H1 | exact H2].
Qed.

Lemma drop_duplicates_sorted (R : waypoint -> waypoint -> Prop)
    (rows : list waypoint) :
  StronglySorted R rows ->
  forall seen, StronglySorted R (drop_duplicates snap seen rows).
Proof.
  induction 1 as [|a r Hr IH Ha]; intros seen; [constructor|].
  rewrite drop_duplicates_cons. destruct (existsb _ seen); [apply IH|].
  constructor; [apply IH|].
  rewrite Forall_forall in Ha |- *. intros w Hw.
  apply Ha. apply drop_duplicates_spec in Hw. tauto.
Qed.

Lemma frame_of_rows_sorted (rows : list waypoint) :
  StronglySorted (key_le wp_t) (frame_of_rows snap rows).
Proof.
  unfold frame_of_rows. destruct rows as [|a r]; [constructor|].
  destruct (Qlt_le_dec 0 snap);
    [apply drop_duplicates_sorted|]; apply sort_by_sorted.
Qed.

Lemma frame_of_rows_incl (rows : list waypoint) (w : waypoint) :
  In w (frame_of_rows snap rows) -> In w rows.
Proof.
  unfold frame_of_rows. destruct rows as [|a r]; [contradiction|].
  destruct (Qlt_le_dec 0 snap); intros H.
  - apply drop_duplicates_spec in H. destruct H as [H _].
    now apply sort_by_In in H.
  - now apply sort_by_In in H.
Qed.

Lemma frame_of_rows_cells (rows : list waypoint) :
  0 < snap ->
  NoDup (map (grid_cell snap) (frame_of_rows snap rows)) /\
  forall w, In w rows ->
            exists w', In w' (frame_of_rows snap rows) /\
                       grid_cell snap w' = grid_cell snap w.
Proof.
  intros Hs. unfold frame_of_rows. destruct rows as [|a r].
  { split; [constructor | contradiction]. }
  destruct (Qlt_le_dec 0 snap) as [_|H]; [|lra].
  split; [apply drop_duplicates_nodup|].
  intros w Hw. apply (sort_by_In wp_t) in Hw.
  destruct (drop_duplicates_cover _ [] w Hw) as [[] | H]. exact H.
Qed.

End Snapping.

Section ReaderExtras.

Import WaypointHeatmap.

Variable py_int : string -> option Z.
Variable py_float : string -> option Q.

(** X9.  Whatever the file and the snap distance, the waypoints returned by
    [_read_waypoints] of [10.4waypoint_heatmap.py] are in ascending order of
    timestamp and each of them was read from a waypoint line of the file;
    when [_read_waypoints] of [geomagnetic.py] returns, the same holds for
    its result. *)
Theorem read_waypoints_sorted :
  forall (snap : Q) (lines : list string),
    StronglySorted (key_le wp_t) (_read_waypoints py_int py_float snap lines) /\
    (forall w, In w (_read_waypoints py_int py_float snap lines) ->
               In w (read_rows py_int py_float lines)) /\
    (forall df, Geomagnetic._read_waypoints py_int py_float snap lines = Ok df ->
                StronglySorted (key_le wp_t) df).
Proof.
  intros snap lines. unfold _read_waypoints.
  split; [apply frame_of_rows_sorted|].
  split; [intros w; apply frame_of_rows_incl|].
  intros df H. unfold Geomagnetic._read_waypoints in H.
  destruct (Geomagnetic.read_rows py_int py_float [] lines); [|discriminate].
  cbn [bind] in H. injection H as <-. apply frame_of_rows_sorted.
Qed.

(** X10.  With a positive snap distance no two waypoints returned by
    [_read_waypoints] fall in the same grid cell, and the cell of every
    waypoint line that was read is still represented in the result. *)
Theorem read_waypoints_one_per_cell :
  forall (snap : Q) (lines : list string),
    0 < snap ->
    NoDup (map (grid_cell snap) (_read_waypoints py_int py_float snap lines)) /\
    forall w, In w (read_rows py_int py_float lines) ->
              exists w', In w' (_read_waypoints py_int py_float snap lines) /\
                         grid_cell snap w' = grid_cell snap w.
Proof.
  intros snap lines Hs. unfold _read_waypoints.
  apply frame_of_rows_cells. exact Hs.
Qed.

End ReaderExtras.

Lemma read_waypoints_one_per_cell_witness :
  NoDup (map (grid_cell (1 # 20))
           (WaypointHeatmap._read_waypoints dec_int dec_float (1 # 20)
              ["10 TYPE_WAYPOINT 1.5 2"%string;
               "11 TYPE_WAYPOINT 1.52 2.01"%string])) /\
  forall w,
    In w (WaypointHeatmap.read_rows dec_int dec_float
            ["10 TYPE_WAYPOINT 1.5 2"%string;
             "11 TYPE_WAYPOINT 1.52 2.01"%string]) ->
    exists w',
      In w' (WaypointHeatmap._read_waypoints dec_int dec_float (1 # 20)
               ["10 TYPE_WAYPOINT 1.5 2"%string;
                "11 TYPE_WAYPOINT 1.52 2.01"%string]) /\
      grid_cell (1 # 20) w' = grid_cell (1 # 20) w.
Proof.
  apply (read_waypoints_one_per_cell dec_int dec_float (1 # 20)
           ["10 TYPE_WAYPOINT 1.5 2"%string;
            "11 TYPE_WAYPOINT 1.52 2.01"%string]).
  reflexivity.
Defined.

Section IgnoredLines.

Import WaypointHeatmap.

Variable py_int : string -> option Z.
Variable py_float : string -> option Q.

(** X11.  A blank line, a comment line (first non-blank character [#]), a
    line with fewer than four fields or a line whose second field is not
    [TYPE_WAYPOINT] has no effect on the waypoint readers, wherever it stands
    in the file: both [_read_waypoints] return what they return for the file
    without that line. *)
Theorem read_waypoints_ignores_other_lines :
  forall (snap : Q) (pre post : list string) (line : string),
    (tokens line = None \/
     exists p, tokens line = Some p /\ is_waypoint_line p = false) ->
    _read_waypoints py_int py_float snap (pre ++ line :: post)
    = _read_waypoints py_int py_float snap (pre ++ post) /\
    Geomagnetic._read_waypoints py_int py_float snap (pre ++ line :: post)
    = Geomagnetic._read_waypoints py_int py_float snap (pre ++ post).
Proof.
  intros snap pre post line H.
  assert (H1 : forall rows, read_line py_int py_float rows line = rows).
  { intros rows. unfold read_line.
    destruct H as [-> | (p & -> & ->)]; reflexivity. }
  assert (H2 : forall rows,
             Geomagnetic.read_line py_int py_float rows line = Ok rows).
  { intros rows. unfold Geomagnetic.read_line.
    destruct H as [-> | (p & -> & ->)]; reflexivity. }
  split.
  - unfold _read_waypoints, read_rows.
    rewrite !fold_left_app. cbn [fold_left]. rewrite H1. reflexivity.
  - unfold Geomagnetic._read_waypoints.
    rewrite !geomagnetic_read_rows_app.
    destruct (Geomagnetic.read_rows py_int py_float [] pre); [|reflexivity].
    cbn [bind Geomagnetic.read_rows]. rewrite H2. reflexivity.
Qed.

End IgnoredLines.

Lemma read_waypoints_ignores_other_lines_witness :
  WaypointHeatmap._read_waypoints dec_int dec_float (1 # 20)
    (["10 TYPE_WAYPOINT 1.5 2"%string]
     ++ "# startTime:1571"%string :: ["20 TYPE_WAYPOINT 3 4"%string])
  = WaypointHeatmap._read_waypoints dec_int dec_float (1 # 20)
      (["10 TYPE_WAYPOINT 1.5 2"%string] ++ ["20 TYPE_WAYPOINT 3 4"%string]) /\
  Geomagnetic._read_waypoints dec_int dec_float (1 # 20)
    (["10 TYPE_WAYPOINT 1.5 2"%string]
     ++ "# startTime:1571"%string :: ["20 TYPE_WAYPOINT 3 4"%string])
  = Geomagnetic._read_waypoints dec_int dec_float (1 # 20)
      (["10 TYPE_WAYPOINT 1.5 2"%string] ++ ["20 TYPE_WAYPOINT 3 4"%string]).
Proof.
  apply (read_waypoints_ignores_other_lines dec_int dec_float (1 # 20)
           ["10 TYPE_WAYPOINT 1.5 2"%string] ["20 TYPE_WAYPOINT 3 4"%string]
           "# startTime:1571"%string).
  left. reflexivity.
Defined.

Section ParseWaypointsAndMags.

Import GeomagHeatmap.

Variable py_int : string -> option Z.
Variable py_float : string -> option Q.

(** X12.  [parse_waypoints_and_mags]: the waypoints come back sorted by
    timestamp and are exactly the waypoints the scan collected; the magnetic
    samples come back sorted by timestamp and all carry one source tag; with
    [prefer="cal"] the uncalibrated samples are used only when the file has
    no calibrated sample, and with [prefer="uncal"] the calibrated ones only
    when it has no uncalibrated sample. *)
Theorem parse_waypoints_and_mags_sorted_one_source :
  forall (lines : list string) (prefer : mag_source),
    let st := scan py_int py_float lines in
    let res := parse_waypoints_and_mags py_int py_float lines prefer in
    StronglySorted (key_le wp_t) (fst res) /\
    Permutation (fst res) (wps st) /\
    StronglySorted (key_le mag_t) (map fst (snd res)) /\
    exists src,
      Forall (fun m => snd m = src) (snd res) /\
      (src = Cal -> Permutation (map fst (snd res)) (mags_cal st)) /\
      (src = Uncal -> Permutation (map fst (snd res)) (mags_uncal st)) /\
      (prefer = Cal -> src = Uncal -> mags_cal st = []) /\
      (prefer = Uncal -> src = Cal -> mags_uncal st = []).
Proof.
  intros lines prefer st res. subst res.
  unfold parse_waypoints_and_mags. fold st.
  assert (Hnil : forall (l : list mag_rec),
             is_nil (sort_by (fun m : mag_rec => fst (fst (fst m))) l) = true ->
             l = []).
  { intros l H. destruct l as [|a r]; [reflexivity|].
    pose proof (Permutation_length
                  (sort_by_perm (fun m : mag_rec => fst (fst (fst m))) (a :: r))) as E.
    destruct (sort_by _ (a :: r)); [discriminate E | discriminate H]. }
  assert (Hmap : forall (l : list mag_rec) (s : mag_source),
             map fst (map (fun m => (m, s)) l) = l).
  { intros l s. rewrite map_map. cbn [fst]. apply map_id. }
  assert (Htag : forall (l : list mag_rec) (s : mag_source),
             Forall (fun m : mag_rec * mag_source => snd m = s)
               (map (fun m => (m, s)) l)).
  { intros l s. apply Forall_forall. intros m Hm.
    apply in_map_iff in Hm. destruct Hm as (x & <- & _). reflexivity. }
  set (sc := sort_by (fun m : mag_rec => fst (fst (fst m))) (mags_cal st)) in *.
  set (su := sort_by (fun m : mag_rec => fst (fst (fst m))) (mags_uncal st)) in *.
  assert (Hsc : StronglySorted (key_le mag_t) sc) by apply sort_by_sorted.
  assert (Hsu : StronglySorted (key_le mag_t) su) by apply sort_by_sorted.
  assert (Hpc : Permutation sc (mags_cal st)) by apply sort_by_perm.
  assert (Hpu : Permutation su (mags_uncal st)) by apply sort_by_perm.
  destruct prefer.
  - destruct (is_nil sc && negb (is_nil su))%bool eqn:E; cbn [fst snd].
    + apply andb_true_iff in E. destruct E as [E _].
      split; [apply sort_by_sorted|]. split; [apply sort_by_perm|].
      rewrite Hmap. split; [exact Hsu|].
      exists Uncal. split; [apply Htag|].
      repeat split; try discriminate; auto.
    + split; [apply sort_by_sorted|]. split; [apply sort_by_perm|].
      rewrite Hmap. split; [exact Hsc|].
      exists Cal. split; [apply Htag|].
      repeat split; try discriminate; auto.
  - destruct (negb (is_nil su)) eqn:E; cbn [fst snd].
    + split; [apply sort_by_sorted|]. split; [apply sort_by_perm|].
      rewrite Hmap. split; [exact Hsu|].
      exists Uncal. split; [apply Htag|].
      repeat split; try discriminate; auto.
    + apply negb_false_iff in E.
      split; [apply sort_by_sorted|]. split; [apply sort_by_perm|].
      rewrite Hmap. split; [exact Hsc|].
      exists Cal. split; [apply Htag|].
      repeat split; try discriminate; auto.
Qed.

End ParseWaypointsAndMags.

(** ** Percentiles *)

Section PercentileOrder.

Import WaypointHeatmap.

Lemma insert_q_perm (a : Q) (l : list Q) : Permutation (insert_q a l) (a :: l).
Proof.
  induction l as [|b r IH]; cbn [insert_q]; [reflexivity|].
  destruct (Qle_bool a b); [reflexivity|]. rewrite IH. apply perm_swap.
Qed.

Lemma sorted_q_perm (l : list Q) : Permutation (sorted_q l) l.
Proof.
  induction l as [|a r IH]; [reflexivity|].
  unfold sorted_q in *. cbn [fold_right].
  rewrite insert_q_perm. now apply perm_skip.
Qed.

Lemma insert_q_sorted (a : Q) (l : list Q) :
  StronglySorted Qle l -> StronglySorted Qle (insert_q a l).
Proof.
  induction l as [|b r IH]; intros Hs; cbn [insert_q].
  - repeat constructor.
  - apply StronglySorted_inv in Hs. destruct Hs as [Hr Hb].
    destruct (Qle_bool a b) eqn:E.
    + apply Qle_bool_iff in E.
      constructor; [constructor; assumption|].
      constructor; [exact E|].
      eapply Forall_impl; [|exact Hb]. intros c Hc. lra.
    + assert (Hba : b <= a).
      { apply Qlt_le_weak. apply Qnot_le_lt. intros H.
        apply Qle_bool_iff in H. congruence. }
      constructor; [apply IH; exact Hr|].
      eapply Permutation_Forall; [symmetry; apply insert_q_perm|].
      constructor; assumption.
Qed.

Lemma sorted_q_sorted (l : list Q) : StronglySorted Qle (sorted_q l).
Proof.
  induction l as [|a r IH]; [constructor|].
  unfold sorted_q in *. cbn [fold_right]. now apply insert_q_sorted.
Qed.

Lemma sorted_nth_Qle (l : list Q) :
  StronglySorted Qle l ->
  forall a b, (a <= b < length l)%nat -> nth a l 0 <= nth b l 0.
Proof.
  induction 1 as [|x r Hr IH Hx]; intros a b Hab; [cbn in Hab; lia|].
  cbn [length] in Hab. rewrite Forall_forall in Hx.
  destruct b as [|b]; [replace a with 0%nat by lia; apply Qle_refl|].
  destruct a as [|a]; cbn [nth].
  - apply Hx. apply nth_In. lia.
  - apply IH. lia.
Qed.

(** The shape of [np.percentile]: between two neighbours of the sorted
    array. *)
Lemma np_percentile_between (a : list Q) (q : Q) :
  a <> [] -> 0 <= q <= 100 ->
  let s := sorted_q a in
  let k := inject_Z (Z.of_nat (length a) - 1) * (q / 100) in
  let prev := Z.to_nat (Qfloor k) in
  let next := Nat.min (prev + 1) (length a - 1) in
  (prev <= next < length a)%nat /\
  nth prev s 0 <= np_percentile a q <= nth next s 0.
Proof.
  intros Hne Hq s k prev next.
  assert (Hn : (1 <= length a)%nat) by (destruct a; [contradiction | cbn; lia]).
  pose proof (floor_index_bounds (length a) q Hn Hq) as Hf. fold k in Hf.
  assert (Hidx : (prev <= next < length a)%nat) by (subst prev next; lia).
  split; [exact Hidx|].
  assert (Hs : nth prev s 0 <= nth next s 0).
  { apply sorted_nth_Qle; [apply sorted_q_sorted|].
    unfold s. rewrite sorted_q_length. exact Hidx. }
  assert (Hg : 0 <= k - inject_Z (Qfloor k) <= 1).
  { pose proof (Qfloor_le k). pose proof (Qlt_floor k) as Hlt.
    rewrite inject_Z_plus in Hlt. change (inject_Z 1) with 1 in Hlt.
    split; lra. }
  unfold np_percentile. fold s k prev next.
  set (g := k - inject_Z (Qfloor k)) in *.
  split; nra.
Qed.

Lemma np_percentile_monotone (a : list Q) (q1 q2 : Q) :
  a <> [] -> 0 <= q1 -> q1 <= q2 -> q2 <= 100 ->
  np_percentile a q1 <= np_percentile a q2.
Proof.
  intros Hne H0 H12 H100.
  assert (Hn : (1 <= length a)%nat) by (destruct a; [contradiction | cbn; lia]).
  assert (Hq1 : 0 <= q1 <= 100) by lra.
  assert (Hq2 : 0 <= q2 <= 100) by lra.
  destruct (np_percentile_between a q1 Hne Hq1) as (Hi1 & Hl1 & Hu1).
  destruct (np_percentile_between a q2 Hne Hq2) as (Hi2 & Hl2 & Hu2).
  pose proof (floor_index_bounds (length a) q1 Hn Hq1) as Hf1.
  pose proof (floor_index_bounds (length a) q2 Hn Hq2) as Hf2.
  set (m := inject_Z (Z.of_nat (length a) - 1)) in *.
  assert (Hm : 0 <= m).
  { unfold m. change 0 with (inject_Z 0). rewrite <- Zle_Qle. lia. }
  assert (Hk : m * (q1 / 100) <= m * (q2 / 100)).
  { assert (q1 / 100 <= q2 / 100).
    { apply Qle_shift_div_l; [lra|]. unfold Qdiv.
      rewrite <- Qmult_assoc, (Qmult_comm (/ 100)), Qmult_inv_r by lra. lra. }
    nra. }
  set (k1 := m * (q1 / 100)) in *. set (k2 := m * (q2 / 100)) in *.
  pose proof (Qfloor_resp_le _ _ Hk) as Hfl.
  destruct (Z.eq_dec (Qfloor k1) (Qfloor k2)) as [E | NE].
  - unfold np_percentile. fold m k1 k2. rewrite E.
    set (p := nth (Z.to_nat (Qfloor k2)) (sorted_q a) 0) in *.
    set (n := nth (Nat.min (Z.to_nat (Qfloor k2) + 1) (length a - 1))
                (sorted_q a) 0) in *.
    assert (Hpn : p <= n).
    { apply sorted_nth_Qle; [apply sorted_q_sorted|].
      rewrite sorted_q_length. lia. }
    nra.
  - apply Qle_trans with
      (nth (Nat.min (Z.to_nat (Qfloor k1) + 1) (length a - 1)) (sorted_q a) 0);
      [exact Hu1|].
    apply Qle_trans with (nth (Z.to_nat (Qfloor k2)) (sorted_q a) 0);
      [|exact Hl2].
    apply sorted_nth_Qle; [apply sorted_q_sorted|].
    rewrite sorted_q_length. lia.
Qed.

End PercentileOrder.

Section NormalizerExtras.

Import WaypointHeatmap.

(** X13.  In exact arithmetic, [robust_minmax] returns a range of positive
    width for every list of finite values, the empty one included, provided
    the two percentiles lie in [[0,100]]: the division in [norm] is then
    defined and no index is out of range.  (The values are rationals; a
    [nan] among them, or a [lo] so large that the double [lo + 1e-6] is
    [lo] again, is outside the statement.) *)
Theorem robust_minmax_positive_range :
  forall (values : list Q) (q_low q_high : Q),
    0 <= q_low <= 100 -> 0 <= q_high <= 100 ->
    exists lo hi,
      GeomagHeatmap.robust_minmax values q_low q_high = Ok (lo, hi) /\ lo < hi.
Proof.
  intros values q_low q_high Hl Hh.
  destruct values as [|a r] eqn:E.
  - exists 0, 1. split; [reflexivity | lra].
  - rewrite <- E. apply robust_minmax_ordered; [rewrite E; discriminate | |];
      assumption.
Qed.

Lemma robust_minmax_positive_range_witness :
  exists lo hi,
    GeomagHeatmap.robust_minmax [3; 1; 2] 5 95 = Ok (lo, hi) /\ lo < hi.
Proof.
  apply (robust_minmax_positive_range [3; 1; 2] 5 95);
    split; vm_compute; discriminate.
Defined.

(** X14.  On a non-empty array and percentiles [0 <= q_low <= q_high <= 100]
    the bounds [plo, phi = np.percentile(Bvals, (q_low, q_high))] are
    ordered, [plo <= phi], and both lie between two values of the array. *)
Theorem heat_bounds_ordered_within_data :
  forall (Bvals : list Q) (q_low q_high : Q),
    Bvals <> [] -> 0 <= q_low -> q_low <= q_high -> q_high <= 100 ->
    let b := heat_bounds (q_low, q_high) Bvals in
    fst b <= snd b /\
    exists v_min v_max,
      In v_min Bvals /\ In v_max Bvals /\ v_min <= fst b /\ snd b <= v_max.
Proof.
  intros Bvals q_low q_high Hne H0 H1 H2 b. subst b.
  unfold heat_bounds. cbn [fst snd].
  split; [apply np_percentile_monotone; assumption|].
  destruct (np_percentile_between Bvals q_low Hne ltac:(lra)) as (Hi1 & Hl1 & _).
  destruct (np_percentile_between Bvals q_high Hne ltac:(lra)) as (Hi2 & _ & Hu2).
  eexists. eexists.
  split; [|split; [|split; [exact Hl1 | exact Hu2]]];
    (eapply Permutation_in; [apply sorted_q_perm|]);
    apply nth_In; rewrite sorted_q_length; lia.
Qed.

Lemma heat_bounds_ordered_within_data_witness :
  let b := heat_bounds (5, 95) [0; 0; 100] in
  fst b <= snd b /\
  exists v_min v_max,
    In v_min [0; 0; 100] /\ In v_max [0; 0; 100] /\
    v_min <= fst b /\ snd b <= v_max.
Proof.
  apply (heat_bounds_ordered_within_data [0; 0; 100] 5 95);
    vm_compute; discriminate.
Defined.

Lemma np_clip_between (x lo hi : Q) :
  lo <= hi -> lo <= np_clip x lo hi <= hi.
Proof.
  intros H. unfold np_clip. split.
  - apply Q.min_glb; [apply Q.le_max_r | exact H].
  - apply Q.le_min_r.
Qed.

(** X15.  [geomagnetic.py], in exact arithmetic and for finite field
    magnitudes: with percentiles [0 <= q_low <= q_high <= 100] every weight
    written to the heat layer lies in [[0,1]], whichever rows the sampler
    keeps; the denominator [max(1e-6, p_hi - p_lo)] is never zero.  (The
    script has no [isfinite] test: a [nan] magnitude is outside the
    statement.) *)
Theorem geomagnetic_weights_unit :
  forall (sample : nat -> list xyB_row -> list xyB_row) (HEAT_MAX_PTS : nat)
         (q_low q_high : Q) (xyB : list xyB_row),
    0 <= q_low -> q_low <= q_high -> q_high <= 100 ->
    Forall (fun r => 0 <= snd r <= 1)
      (Geomagnetic.heat_rows sample HEAT_MAX_PTS (q_low, q_high) xyB).
Proof.
  intros sample cap q_low q_high xyB H0 H1 H2.
  unfold Geomagnetic.heat_rows.
  set (rows := Geomagnetic.capped sample cap xyB).
  destruct rows as [|r0 rows'] eqn:E.
  { destruct (heat_bounds _ _). constructor. }
  rewrite <- E.
  assert (Hne : map row_B rows <> []) by (rewrite E; discriminate).
  pose proof (np_percentile_monotone (map row_B rows) q_low q_high
                Hne H0 H1 H2) as Hle.
  unfold heat_bounds. cbn [fst snd].
  set (p_lo := np_percentile (map row_B rows) q_low) in *.
  set (p_hi := np_percentile (map row_B rows) q_high) in *.
  apply Forall_forall. intros r Hr. apply in_map_iff in Hr.
  destruct Hr as (x & <- & _). cbn [snd].
  pose proof (np_clip_between (row_B x) p_lo p_hi Hle) as [Hc0 Hc1].
  pose proof (Q.le_max_l GeomagHeatmap.eps6 (p_hi - p_lo)) as Hd0.
  pose proof (Q.le_max_r GeomagHeatmap.eps6 (p_hi - p_lo)) as Hd1.
  set (d := Qmax GeomagHeatmap.eps6 (p_hi - p_lo)) in *.
  assert (Hd : 0 < d) by (unfold GeomagHeatmap.eps6 in Hd0; lra).
  split.
  - apply Qle_shift_div_l; [exact Hd | lra].
  - apply Qle_shift_div_r; [exact Hd | lra].
Qed.

Lemma geomagnetic_weights_unit_witness :
  Forall (fun r => 0 <= snd r <= 1)
    (Geomagnetic.heat_rows (@firstn xyB_row) 2 (5, 95) xyB_three).
Proof.
  apply (geomagnetic_weights_unit (@firstn xyB_row) 2 5 95 xyB_three);
    vm_compute; discriminate.
Defined.

End NormalizerExtras.

(** ** The affine mapper *)

Section AffineAlgebra.

Import WaypointHeatmap.

(** X16.  In exact arithmetic, [_xy_to_pixel] (the transform followed by
    the optional flips) commutes with linear interpolation: the pixel of an
    interpolated position is the same interpolation of the pixels of the two
    waypoints, so the heat points lie on the polyline drawn through the
    transformed waypoints.  The two sides are equal as rationals; in doubles
    they agree up to rounding only. *)
Theorem xy_to_pixel_commutes_with_interpolation :
  forall (xflip yflip : bool) (map_w map_h : Q) (A : affine)
         (x0 y0 x1 y1 r : Q),
    let p0 := _xy_to_pixel xflip yflip x0 y0 map_w map_h A in
    let p1 := _xy_to_pixel xflip yflip x1 y1 map_w map_h A in
    same_point
      (_xy_to_pixel xflip yflip (x0 * (1 - r) + x1 * r) (y0 * (1 - r) + y1 * r)
      map_w map_h A)
      (fst p0 * (1 - r) + fst p1 * r, snd p0 * (1 - r) + snd p1 * r).
Proof.
  intros xflip yflip map_w map_h A x0 y0 x1 y1 r.
  destruct A as [[[[[a b] c] d] e] f].
  unfold _xy_to_pixel, _apply_affine_xy.
  unfold same_point. destruct xflip, yflip; cbn [fst snd]; split; ring.
Qed.

(** X17.  In exact arithmetic, the default transform
    [(1, 0, 0, -1, 0, map_h)] sends [(x, y)] to [(x, map_h - y)]; it is its
    own inverse, and switching on the vertical flip after it brings every
    point back to [(x, y)].  The horizontal flip [x -> map_w - x] is its own
    inverse as well.  The equalities are between rationals; in doubles they
    hold up to rounding only. *)
Theorem default_flip_is_an_involution :
  forall (x y map_w map_h : Q),
    let A := (1, 0, 0, -(1), 0, map_h) in
    let p := _apply_affine_xy x y A in
    same_point p (x, map_h - y) /\
    same_point (_apply_affine_xy (fst p) (snd p) A) (x, y) /\
    same_point (_xy_to_pixel false true x y map_w map_h A) (x, y) /\
    (let q := _xy_to_pixel true false x y map_w map_h (1, 0, 0, 1, 0, 0) in
     same_point
       (_xy_to_pixel true false (fst q) (snd q) map_w map_h (1, 0, 0, 1, 0, 0))
       (x, y)).
Proof.
  intros x y map_w map_h.
  unfold same_point, _xy_to_pixel, _apply_affine_xy. cbn [fst snd].
  repeat split; ring.
Qed.

End AffineAlgebra.

Section ComposeAffine.

Import WaypointHeatmap.

Variable cos_deg sin_deg : Q -> Q.

(** X18.  In exact arithmetic, [_compose_affine(scale, theta, translate)]
    sends the origin to [translate], and its linear part has determinant
    [sx * sy * (cos^2 + sin^2)] for the values [cos], [sin] the code
    computes: the transform mirrors exactly when the two scale factors have
    opposite signs.  The equalities are between rationals; in doubles they
    hold up to rounding only. *)
Theorem compose_affine_origin_and_determinant :
  forall (sx sy theta tx ty : Q),
    let A := _compose_affine cos_deg sin_deg (sx, sy) theta (tx, ty) in
    let '(a, b, c, d, e, f) := A in
    fst (_apply_affine_xy 0 0 A) == tx /\
    snd (_apply_affine_xy 0 0 A) == ty /\
    a * d - b * c
    == sx * sy * (cos_deg theta * cos_deg theta + sin_deg theta * sin_deg theta).
Proof.
  intros sx sy theta tx ty.
  unfold _compose_affine, _apply_affine_xy. cbn [fst snd].
  repeat split; ring.
Qed.

End ComposeAffine.

Section AffineResolutionExtras.

Import WaypointHeatmap.

Local Open Scope string_scope.

Variable py_float : string -> option Q.
Variable cos_deg sin_deg : Q -> Q.

Lemma dict_get_has_key (k : string) (kv : list (string * json)) (v : json) :
  dict_get k kv = Some v -> has_key k kv = true.
Proof. intros H. unfold has_key. now rewrite H. Qed.

(** X19.  Floor metadata without a [transform] member whose [map_info] has
    numeric [width] and [height] and none of [origin], [theta_deg],
    [pixel_per_meter], [meters_per_pixel] resolves to the default flip
    [(1, 0, 0, -1, 0, height)], whatever other members the two objects
    carry. *)
Theorem metadata_without_transform_resolves_to_default_flip :
  forall (top kv : list (string * json)) (w h : Q),
    dict_get "transform" top = None ->
    dict_get "map_info" top = Some (JObj kv) ->
    dict_get "width" kv = Some (JNum w) ->
    dict_get "height" kv = Some (JNum h) ->
    dict_get "origin" kv = None ->
    dict_get "theta_deg" kv = None ->
    dict_get "pixel_per_meter" kv = None ->
    dict_get "meters_per_pixel" kv = None ->
    main_affine py_float cos_deg sin_deg EmptyString (JObj top)
    = Ok (1, 0, 0, -(1), 0, h).
Proof.
  intros top kv w h Ht Hmi Hw Hh Ho Hth Hp Hm.
  assert (Hkv : kv <> []) by (intros ->; discriminate Hw).
  unfold main_affine, _try_affine_from_floorinfo.
  cbn [py_getitem py_get String.eqb negb]. rewrite Hmi. cbn [bind py_getitem].
  rewrite Hw, Hh. cbn [bind to_float py_float_of]. unfold to_float. cbn [py_float_of bind].
  rewrite Ht. cbn [or_else truthy bind].
  change (affine_from_transform py_float cos_deg sin_deg (JObj []))
    with (@Ok (option affine) None). cbn [bind].
  destruct kv as [|kv0 kvr] eqn:E; [contradiction|].
  unfold or_else. cbn [truthy]. rewrite <- E in *.
  unfold affine_from_map_info. rewrite Ho. cbn [bind py_get].
  rewrite Hth. unfold to_float. cbn [py_float_of bind].
  unfold has_key. rewrite Hp, Hm. reflexivity.
Qed.

(** X20.  An override string that parses is the resolved transform as soon
    as the width and the height of the floor can be read: the [transform]
    member of the metadata is then never looked at, so malformed metadata
    that makes the automatic resolution raise does no harm. *)
Theorem override_string_wins :
  forall (s : string) (A : affine) (floorinfo : json) (top kv : list (string * json))
         (w h : Q),
    s <> EmptyString ->
    _parse_affine_from_string py_float s = Some A ->
    floorinfo = JObj top ->
    dict_get "map_info" top = Some (JObj kv) ->
    dict_get "width" kv = Some (JNum w) ->
    dict_get "height" kv = Some (JNum h) ->
    main_affine py_float cos_deg sin_deg s floorinfo = Ok A.
Proof.
  intros s A floorinfo top kv w h Hs Hp -> Hmi Hw Hh.
  unfold main_affine.
  cbn [py_getitem]. rewrite Hmi. cbn [bind py_getitem].
  rewrite Hw, Hh. unfold to_float. cbn [py_float_of bind].
  replace (String.eqb s EmptyString) with false
    by (symmetry; apply String.eqb_neq; exact Hs).
  cbn [negb]. rewrite Hp. reflexivity.
Qed.

(** X21.  A [transform] member that carries the six coefficients [a] .. [f]
    as numbers is returned as it is, before any other strategy is tried and
    whatever else the metadata holds. *)
Theorem named_coefficients_are_returned :
  forall (top tkv : list (string * json)) (a b c d e f : Q),
    dict_get "transform" top = Some (JObj tkv) ->
    dict_get "a" tkv = Some (JNum a) ->
    dict_get "b" tkv = Some (JNum b) ->
    dict_get "c" tkv = Some (JNum c) ->
    dict_get "d" tkv = Some (JNum d) ->
    dict_get "e" tkv = Some (JNum e) ->
    dict_get "f" tkv = Some (JNum f) ->
    _try_affine_from_floorinfo py_float cos_deg sin_deg (JObj top)
    = Ok (Some (a, b, c, d, e, f)).
Proof.
  intros top tkv a b c d e f Ht Ha Hb Hc Hd He Hf.
  assert (Hkv : tkv <> []) by (intros ->; discriminate Ha).
  unfold _try_affine_from_floorinfo. cbn [py_get]. rewrite Ht. cbn [bind].
  unfold or_else. cbn [truthy].
  destruct tkv as [|x r] eqn:E; [contradiction|]. rewrite <- E in *.
  unfold affine_from_transform. cbn [is_dict forallb andb].
  rewrite (dict_get_has_key _ _ _ Ha), (dict_get_has_key _ _ _ Hb),
    (dict_get_has_key _ _ _ Hc), (dict_get_has_key _ _ _ Hd),
    (dict_get_has_key _ _ _ He), (dict_get_has_key _ _ _ Hf).
  cbn [andb py_getitem]. rewrite Ha, Hb, Hc, Hd, He, Hf.
  unfold to_float. cbn [py_float_of bind]. reflexivity.
Qed.

End AffineResolutionExtras.

Section AffineResolutionWitnesses.

Import WaypointHeatmap.

Local Open Scope string_scope.

Lemma metadata_without_transform_resolves_to_default_flip_witness :
  main_affine dec_float (fun _ => 1) (fun _ => 0) EmptyString
    (JObj [("map_info", JObj [("width", JNum 100); ("height", JNum 200);
                              ("floor", JStr "F1")]);
           ("site", JStr "site1")])
  = Ok (1, 0, 0, -(1), 0, 200).
Proof.
  apply (metadata_without_transform_resolves_to_default_flip
           dec_float (fun _ => 1) (fun _ => 0)
           [("map_info", JObj [("width", JNum 100); ("height", JNum 200);
                               ("floor", JStr "F1")]);
            ("site", JStr "site1")]
           [("width", JNum 100); ("height", JNum 200); ("floor", JStr "F1")]
           100 200); reflexivity.
Defined.

Lemma override_string_wins_witness :
  main_affine dec_float (fun _ => 1) (fun _ => 0) "1,0,0,-1,0,10800"
    floorinfo_scalar_scale
  = Ok (1, 0, 0, -(1), 0, 10800).
Proof.
  apply (override_string_wins dec_float (fun _ => 1) (fun _ => 0)
           "1,0,0,-1,0,10800" (1, 0, 0, -(1), 0, 10800)
           floorinfo_scalar_scale
           [("map_info", JObj [("width", JNum 100); ("height", JNum 200)]);
            ("transform", JObj [("scale", JNum 2);
                                ("translate", JList [JNum 0; JNum 0])])]
           [("width", JNum 100); ("height", JNum 200)] 100 200);
    try reflexivity.
  discriminate.
Defined.

Lemma named_coefficients_are_returned_witness :
  _try_affine_from_floorinfo dec_float (fun _ => 1) (fun _ => 0)
    (floorinfo_coeff (JNum 2))
  = Ok (Some (2, 0, 0, 1, 0, 0)).
Proof.
  apply (named_coefficients_are_returned dec_float (fun _ => 1) (fun _ => 0)
           [("map_info", JObj [("width", JNum 100); ("height", JNum 200)]);
            ("transform", JObj [("a", JNum 2); ("b", JNum 0); ("c", JNum 0);
                                ("d", JNum 1); ("e", JNum 0); ("f", JNum 0)])]
           [("a", JNum 2); ("b", JNum 0); ("c", JNum 0);
            ("d", JNum 1); ("e", JNum 0); ("f", JNum 0)]
           2 0 0 1 0 0); reflexivity.
Defined.

End AffineResolutionWitnesses.

(** ** The GeoJSON transform *)

Section GeoJsonExtras.

Import WaypointHeatmap GeoJson.

Local Open Scope string_scope.

Variable xflip yflip : bool.
Variable map_w map_h : Q.
Variable A : affine.

Lemma ctree_induction (P : ctree -> Prop) :
  (forall x y extra, P (Pt x y extra)) ->
  (forall c cs, P c -> Forall P cs -> P (Nest c cs)) ->
  forall t, P t.
Proof.
  intros HP HN. fix IH 1. intros [x y extra | c cs].
  - apply HP.
  - apply HN; [apply IH|].
    induction cs as [|c' cs' IHcs]; constructor; [apply IH | exact IHcs].
Qed.

Lemma num_of_ctree (t : ctree) : num_of (ctree_json t) = None.
Proof. destruct t; reflexivity. Qed.

(** [_tx] on well-formed coordinates: same nesting, every position mapped. *)
Lemma tx_ctree (t : ctree) :
  _tx xflip yflip map_w map_h A (ctree_json t)
  = Done (ctree_json
            (ctree_map (fun x y => _xy_to_pixel xflip yflip x y map_w map_h A) t)).
Proof.
  induction t as [x y extra | c cs IHc IHcs] using ctree_induction.
  - cbn [ctree_json _tx num_of ctree_map].
    destruct (_xy_to_pixel xflip yflip x y map_w map_h A) as [xp yp].
    reflexivity.
  - cbn [ctree_json ctree_map]. cbn [_tx].
    rewrite num_of_ctree. rewrite IHc. cbn [obind].
    match goal with
    | |- obind (obind ?g _) _ = _ =>
        assert (Hgo : g = Done (map ctree_json
                                  (map (ctree_map
                                          (fun x y => _xy_to_pixel xflip yflip x y
                                                        map_w map_h A)) cs)))
    end.
    { induction IHcs as [|c' cs' Hc' _ IH']; [reflexivity|].
      cbn [map]. rewrite Hc'. cbn [obind]. rewrite IH'. reflexivity. }
    rewrite Hgo. reflexivity.
Qed.

(** An object whose [type] is not ["FeatureCollection"] takes the last
    [return] of [_tx_geojson_xy_to_simple]. *)
Lemma tx_geojson_not_a_collection (kv : list (string * json)) :
  dict_get "type" kv <> Some (JStr "FeatureCollection") ->
  _tx_geojson_xy_to_simple xflip yflip map_w map_h A (JObj kv)
  = obind (lift (py_get (JObj kv) "type" (JStr "GeometryCollection"))) (fun ty' =>
    obind (lift (py_get (JObj kv) "coordinates" (JList []))) (fun co =>
    obind (_tx xflip yflip map_w map_h A co) (fun c =>
    Done (JObj [("type", ty'); ("coordinates", c)])))).
Proof.
  intros Hty. unfold _tx_geojson_xy_to_simple.
  cbn [py_get lift obind].
  destruct (dict_get "type" kv) as [ty|] eqn:E; [|reflexivity].
  destruct ty as [| | |s| |]; try reflexivity.
  destruct (String.eqb s "FeatureCollection") eqn:Es.
  - apply String.eqb_eq in Es. subst s. contradiction Hty. reflexivity.
  - clear Hty E. apply String.eqb_neq in Es.
    repeat (destruct s as [|[[] [] [] [] [] [] [] []] s];
            try reflexivity; try (exfalso; apply Es; reflexivity)).
Qed.

(** X22.  A geometry object (anything but a [FeatureCollection]) whose
    coordinates are well formed, at any nesting depth (a position, a line, a
    polygon, a multi-polygon ...), goes through [_tx_geojson_xy_to_simple]
    without an exception; the result keeps the type
    (["GeometryCollection"] when there is none) and the nesting of the
    coordinates, every position is replaced by its image under
    [_xy_to_pixel], and members of a position after the first two (an
    altitude) are dropped. *)
Theorem tx_preserves_nesting :
  forall (kv : list (string * json)) (t : ctree),
    dict_get "type" kv <> Some (JStr "FeatureCollection") ->
    dict_get "coordinates" kv = Some (ctree_json t) ->
    _tx_geojson_xy_to_simple xflip yflip map_w map_h A (JObj kv)
    = Done (JObj [("type", match dict_get "type" kv with
                           | Some ty => ty
                           | None => JStr "GeometryCollection"
                           end);
                  ("coordinates",
                   ctree_json
                     (ctree_map
                        (fun x y => _xy_to_pixel xflip yflip x y map_w map_h A)
                        t))]).
Proof.
  intros kv t Hty Hco. rewrite (tx_geojson_not_a_collection kv Hty).
  cbn [py_get lift obind]. rewrite Hco. rewrite tx_ctree. reflexivity.
Qed.

(** X23.  A GeoJSON object that is not a [FeatureCollection] and has no
    [coordinates] member (a [GeometryCollection], a bare [Feature]) makes
    [_tx_geojson_xy_to_simple] raise [IndexError]: the default [[]] of
    [gj.get("coordinates", [])] has no first item. *)
Theorem geojson_without_coordinates_raises :
  forall kv : list (string * json),
    dict_get "type" kv <> Some (JStr "FeatureCollection") ->
    dict_get "coordinates" kv = None ->
    _tx_geojson_xy_to_simple xflip yflip map_w map_h A (JObj kv)
    = Fails IndexError.
Proof.
  intros kv Hty Hco. rewrite (tx_geojson_not_a_collection kv Hty).
  cbn [py_get lift obind]. rewrite Hco. reflexivity.
Qed.

End GeoJsonExtras.

Section GeoJsonFeatures.

Import WaypointHeatmap GeoJson.

Local Open Scope string_scope.

Variable xflip yflip : bool.
Variable map_w map_h : Q.
Variable A : affine.

Lemma dict_get_filter_other (k k' : string) (kv : list (string * json)) :
  k' <> k ->
  dict_get k' (filter (fun p => negb (String.eqb k (fst p))) kv) = dict_get k' kv.
Proof.
  intros Hne. induction kv as [|[k0 v0] r IH]; [reflexivity|].
  cbn [filter fst]. destruct (String.eqb_spec k k0) as [<- | Hk0]; cbn [negb].
  - cbn [dict_get]. rewrite IH.
    destruct (dict_get k' r); [reflexivity|].
    destruct (String.eqb_spec k' k); [contradiction | reflexivity].
  - cbn [dict_get]. rewrite IH. reflexivity.
Qed.

Lemma dict_get_filter_same (k : string) (kv : list (string * json)) :
  dict_get k (filter (fun p => negb (String.eqb k (fst p))) kv) = None.
Proof.
  induction kv as [|[k0 v0] r IH]; [reflexivity|].
  cbn [filter fst]. destruct (String.eqb_spec k k0) as [<- | Hk0]; cbn [negb].
  - exact IH.
  - cbn [dict_get]. rewrite IH.
    destruct (String.eqb_spec k k0); [contradiction | reflexivity].
Qed.

(** Writing a member and reading it back; the other members are untouched. *)
Lemma dict_get_set (k : string) (v : json) (kv : list (string * json)) :
  dict_get k (dict_set k v kv) = Some v /\
  forall k', k' <> k -> dict_get k' (dict_set k v kv) = dict_get k' kv.
Proof.
  induction kv as [|[k0 v0] r [IH1 IH2]]; cbn [dict_set].
  - split.
    + cbn [dict_get]. now rewrite String.eqb_refl.
    + intros k' Hne. cbn [dict_get].
      destruct (String.eqb_spec k' k); [contradiction | reflexivity].
  - destruct (String.eqb_spec k k0) as [<- | Hk0].
    + split.
      * cbn [dict_get]. rewrite dict_get_filter_same.
        now rewrite String.eqb_refl.
      * intros k' Hne. cbn [dict_get].
        rewrite (dict_get_filter_other k k' r Hne).
        destruct (dict_get k' r); [reflexivity|].
        destruct (String.eqb_spec k' k); [contradiction | reflexivity].
    + split.
      * cbn [dict_get]. rewrite IH1. reflexivity.
      * intros k' Hne. cbn [dict_get]. rewrite (IH2 k' Hne). reflexivity.
Qed.

(** X24.  A feature whose geometry has well-formed coordinates comes back
    with its [geometry] member replaced by the type and the transformed
    coordinates; every other member of the feature (its properties, its id)
    is the one of the input. *)
Theorem tx_feature_keeps_other_members :
  forall (kv gkv : list (string * json)) (t : ctree),
    dict_get "geometry" kv = Some (JObj gkv) ->
    dict_get "coordinates" gkv = Some (ctree_json t) ->
    exists kv',
      tx_feature xflip yflip map_w map_h A (JObj kv) = Done (Some (JObj kv')) /\
      dict_get "geometry" kv'
      = Some (JObj [("type", match dict_get "type" gkv with
                             | Some ty => ty
                             | None => JNull
                             end);
                    ("coordinates",
                     ctree_json
                       (ctree_map
                          (fun x y => _xy_to_pixel xflip yflip x y map_w map_h A)
                          t))]) /\
      forall k, k <> "geometry" -> dict_get k kv' = dict_get k kv.
Proof.
  intros kv gkv t Hg Hc.
  assert (Ht : truthy (JObj gkv) = true)
    by (destruct gkv; [discriminate Hc | reflexivity]).
  unfold tx_feature. cbn [py_get lift obind]. rewrite Hg. cbv zeta.
  unfold or_else. rewrite Ht. rewrite Ht.
  cbn [negb py_get lift obind]. rewrite Hc.
  rewrite tx_ctree. cbn [obind].
  eexists. split; [reflexivity|].
  destruct (dict_get_set "geometry"
              (JObj [("type", match dict_get "type" gkv with
                              | Some ty => ty
                              | None => JNull
                              end);
                     ("coordinates",
                      ctree_json
                        (ctree_map
                           (fun x y => _xy_to_pixel xflip yflip x y map_w map_h A)
                           t))]) kv) as [H1 H2].
  split; [exact H1 | exact H2].
Qed.

Lemma tx_feature_skips (ft : json) (o : option json) :
  tx_feature xflip yflip map_w map_h A ft = Done o ->
  (match o with Some _ => true | None => false end) = has_geometry ft.
Proof.
  unfold tx_feature, has_geometry. destruct ft as [| | | | |kv];
    try discriminate.
  cbn [py_get lift obind].
  destruct (dict_get "geometry" kv) as [g|] eqn:Eg.
  - unfold or_else. destruct (truthy g) eqn:Et.
    + rewrite Et. cbn [negb].
      destruct (lift (py_get g "type" JNull)); try discriminate. cbn [obind].
      destruct (lift (py_get g "coordinates" JNull)); try discriminate.
      cbn [obind].
      destruct (_tx xflip yflip map_w map_h A a0); try discriminate.
      cbn [obind]. intros H. injection H as <-. reflexivity.
    + cbn [truthy negb]. intros H. injection H as <-. reflexivity.
  - unfold or_else. cbn [truthy negb]. intros H. injection H as <-. reflexivity.
Qed.

Lemma tx_features_length (fts out : list json) :
  tx_features xflip yflip map_w map_h A fts = Done out ->
  length out = length (filter has_geometry fts).
Proof.
  revert out. induction fts as [|ft r IH]; intros out H; cbn [tx_features] in H.
  - injection H as <-. reflexivity.
  - destruct (tx_feature xflip yflip map_w map_h A ft) as [o| |] eqn:Ef;
      try discriminate.
    cbn [obind] in H.
    destruct (tx_features xflip yflip map_w map_h A r) as [out'| |];
      try discriminate.
    cbn [obind] in H. injection H as <-.
    apply tx_feature_skips in Ef. cbn [filter]. rewrite <- Ef.
    destruct o; cbn [length]; rewrite (IH out' eq_refl); reflexivity.
Qed.

(** X25.  On a [FeatureCollection] whose [features] member is a list, a
    result of [_tx_geojson_xy_to_simple] is again a [FeatureCollection], and
    it has one feature for every input feature with a geometry: features
    whose geometry is missing, [null] or empty are left out. *)
Theorem feature_collection_drops_features_without_geometry :
  forall (kv : list (string * json)) (fts : list json) (r : json),
    dict_get "type" kv = Some (JStr "FeatureCollection") ->
    dict_get "features" kv = Some (JList fts) ->
    _tx_geojson_xy_to_simple xflip yflip map_w map_h A (JObj kv) = Done r ->
    exists out,
      r = JObj [("type", JStr "FeatureCollection"); ("features", JList out)] /\
      length out = length (filter has_geometry fts).
Proof.
  intros kv fts r Hty Hfs H. unfold _tx_geojson_xy_to_simple in H.
  cbn [py_get lift obind] in H. rewrite Hty, Hfs in H.
  cbn [py_iter lift obind] in H.
  destruct (tx_features xflip yflip map_w map_h A fts) as [out| |] eqn:E;
    try discriminate.
  cbn [obind] in H. injection H as <-.
  exists out. split; [reflexivity|]. now apply tx_features_length.
Qed.

End GeoJsonFeatures.

Section GeoJsonWitnesses.

Import WaypointHeatmap GeoJson.

Local Open Scope string_scope.

Lemma tx_preserves_nesting_witness :
  _tx_geojson_xy_to_simple false false 100 200 (1, 0, 0, -(1), 0, 200)
    (JObj [("type", JStr "LineString");
           ("coordinates",
            ctree_json (Nest (Pt 10 20 []) [Pt 30 40 [JNum 7]]))])
  = Done (JObj [("type", JStr "LineString");
                ("coordinates",
                 ctree_json
                   (ctree_map
                      (fun x y => _xy_to_pixel false false x y 100 200
                                    (1, 0, 0, -(1), 0, 200))
                      (Nest (Pt 10 20 []) [Pt 30 40 [JNum 7]])))]).
Proof.
  apply (tx_preserves_nesting false false 100 200 (1, 0, 0, -(1), 0, 200)
           [("type", JStr "LineString");
            ("coordinates",
             ctree_json (Nest (Pt 10 20 []) [Pt 30 40 [JNum 7]]))]
           (Nest (Pt 10 20 []) [Pt 30 40 [JNum 7]])).
  - discriminate.
  - reflexivity.
Defined.

Lemma geojson_without_coordinates_raises_witness :
  _tx_geojson_xy_to_simple false false 100 200 (1, 0, 0, -(1), 0, 200)
    (JObj [("type", JStr "GeometryCollection"); ("geometries", JList [])])
  = Fails IndexError.
Proof.
  apply (geojson_without_coordinates_raises false false 100 200
           (1, 0, 0, -(1), 0, 200)
           [("type", JStr "GeometryCollection"); ("geometries", JList [])]).
  - discriminate.
  - reflexivity.
Defined.

Lemma tx_feature_keeps_other_members_witness :
  exists kv',
    tx_feature false false 100 200 (1, 0, 0, -(1), 0, 200)
      (JObj [("type", JStr "Feature");
             ("geometry", JObj [("type", JStr "Point");
                                ("coordinates", JList [JNum 10; JNum 20; JNum 3])]);
             ("properties", JObj [("name", JStr "shop")])])
    = Done (Some (JObj kv')) /\
    dict_get "geometry" kv'
    = Some (JObj [("type", JStr "Point");
                  ("coordinates",
                   ctree_json
                     (ctree_map
                        (fun x y => _xy_to_pixel false false x y 100 200
                                      (1, 0, 0, -(1), 0, 200))
                        (Pt 10 20 [JNum 3])))]) /\
    forall k, k <> "geometry" ->
              dict_get k kv'
              = dict_get k
                  [("type", JStr "Feature");
                   ("geometry", JObj [("type", JStr "Point");
                                      ("coordinates",
                                       JList [JNum 10; JNum 20; JNum 3])]);
                   ("properties", JObj [("name", JStr "shop")])].
Proof.
  apply (tx_feature_keeps_other_members false false 100 200
           (1, 0, 0, -(1), 0, 200)
           [("type", JStr "Feature");
            ("geometry", JObj [("type", JStr "Point");
                               ("coordinates", JList [JNum 10; JNum 20; JNum 3])]);
            ("properties", JObj [("name", JStr "shop")])]
           [("type", JStr "Point");
            ("coordinates", JList [JNum 10; JNum 20; JNum 3])]
           (Pt 10 20 [JNum 3])); reflexivity.
Defined.

Lemma feature_collection_drops_features_without_geometry_witness :
  exists out,
    JObj [("type", JStr "FeatureCollection");
          ("features",
           JList [JObj [("type", JStr "Feature");
                        ("geometry",
                         JObj [("type", JStr "Point");
                               ("coordinates",
                                JList [JNum (fst (_xy_to_pixel false false 10 20
                                                    100 200
                                                    (1, 0, 0, -(1), 0, 200)));
                                       JNum (snd (_xy_to_pixel false false 10 20
                                                    100 200
                                                    (1, 0, 0, -(1), 0, 200)))])])]])]
    = JObj [("type", JStr "FeatureCollection"); ("features", JList out)] /\
    length out
    = length (filter has_geometry
                [JObj [("type", JStr "Feature"); ("geometry", JNull)];
                 JObj [("type", JStr "Feature");
                       ("geometry",
                        JObj [("type", JStr "Point");
                              ("coordinates", JList [JNum 10; JNum 20])])]]).
Proof.
  apply (feature_collection_drops_features_without_geometry false false 100 200
           (1, 0, 0, -(1), 0, 200)
           [("type", JStr "FeatureCollection");
            ("features",
             JList [JObj [("type", JStr "Feature"); ("geometry", JNull)];
                    JObj [("type", JStr "Feature");
                          ("geometry",
                           JObj [("type", JStr "Point");
                                 ("coordinates", JList [JNum 10; JNum 20])])]])]
           [JObj [("type", JStr "Feature"); ("geometry", JNull)];
            JObj [("type", JStr "Feature");
                  ("geometry",
                   JObj [("type", JStr "Point");
                         ("coordinates", JList [JNum 10; JNum 20])])]]).
  - reflexivity.
  - reflexivity.
  - vm_compute. reflexivity.
Defined.

End GeoJsonWitnesses.

(** ** The heat points of geomag_heatmap.py *)

Section HeatPointsExtras.

Import GeomagHeatmap GeomagHeatPoints.

Variable py_int : string -> option Z.
Variable py_float : string -> option Q.
Variable sqrt : Q -> Q.
Variable A : option WaypointHeatmap.affine.
Variable map_h : Q.
Variable y_flip : bool.
Variable prefer_src : mag_source.
Variable stat : string.
Variable subsample : Z.

Lemma interpolate_pos_total (waypoints : list waypoint) (times : list Z)
    (mode : interp_mode) :
  exists out, interpolate_pos_for_times waypoints times mode = Ok out /\
              length out = length times.
Proof.
  destruct waypoints as [|w ws].
  - exists (repeat None (length times)).
    split; [reflexivity | apply repeat_length].
  - cbn [interpolate_pos_for_times]. apply pos_loop_total.
Qed.

Lemma pos_loop_hold_some (ts : list Z) (xs ys : list Q) (times : list Z) :
  forall j, exists out,
    pos_loop Hold ts xs ys j times = Ok out /\
    length out = length times /\
    Forall (fun p => p <> None) out.
Proof.
  induction times as [|t rest IH]; intros j; cbn [pos_loop].
  - exists []. repeat split; constructor.
  - destruct (sample_pos_hold ts xs ys (advance ts j t) t) as [p ->].
    destruct (IH (advance ts j t)) as (out & -> & Hlen & Hall).
    cbn [bind]. exists (Some p :: out). cbn [length].
    repeat split; [now rewrite Hlen|]. constructor; [discriminate | exact Hall].
Qed.

Lemma keep_points_length (pm : list (option (Q * Q) * (mag_rec * mag_source))) :
  (length (keep_points sqrt A map_h y_flip stat pm) <= length pm)%nat.
Proof.
  induction pm as [|[[[x y]|] m] r IH]; cbn [keep_points length]; try lia.
  destruct A as [a|]; [destruct (apply_affine_xy x y a)|]; cbn [length]; lia.
Qed.

Lemma keep_points_all (pos : list (option (Q * Q)))
    (mags : list (mag_rec * mag_source)) :
  Forall (fun p => p <> None) pos ->
  length (keep_points sqrt A map_h y_flip stat (combine pos mags))
  = length (combine pos mags).
Proof.
  intros Hall. revert mags.
  induction Hall as [|p pos' Hp _ IH]; intros mags; [reflexivity|].
  destruct mags as [|m mags']; [reflexivity|].
  cbn [combine]. destruct p as [[x y]|]; [|contradiction].
  cbn [keep_points].
  destruct A as [a|]; [destruct (apply_affine_xy x y a)|];
    cbn [length]; now rewrite IH.
Qed.

Lemma slice_step_length {X : Type} (step : nat) (l : list X) :
  forall skip, (length (slice_step skip step l) <= length l)%nat.
Proof.
  induction l as [|a r IH]; intros skip; cbn [slice_step length]; [lia|].
  destruct skip as [|k]; cbn [length].
  - specialize (IH (step - 1)%nat). lia.
  - specialize (IH k). lia.
Qed.

Lemma file_points_total (mode : interp_mode) (lines : list string) :
  exists pts,
    file_points py_int py_float sqrt A map_h y_flip prefer_src stat subsample
      mode lines = Ok pts /\
    (length pts
     <= length (snd (parse_waypoints_and_mags py_int py_float lines prefer_src)))%nat.
Proof.
  unfold file_points.
  destruct (parse_waypoints_and_mags py_int py_float lines prefer_src)
    as [ws mags].
  cbn [snd].
  destruct (_ || _)%bool.
  { exists []. split; [reflexivity | cbn [length]; lia]. }
  destruct (interpolate_pos_total ws (map mag_time mags) mode)
    as (pos & -> & Hlen).
  cbn [bind]. eexists. split; [reflexivity|].
  pose proof (keep_points_length (combine pos mags)) as Hk.
  rewrite length_combine in Hk.
  destruct (1 <? subsample)%Z.
  - pose proof (slice_step_length (Z.to_nat subsample)
                  (keep_points sqrt A map_h y_flip stat (combine pos mags)) 0).
    lia.
  - lia.
Qed.

Lemma collect_total (mode : interp_mode) (txt_files : list (list string)) :
  exists temp,
    collect py_int py_float sqrt A map_h y_flip prefer_src stat subsample
      mode txt_files = Ok temp.
Proof.
  induction txt_files as [|lines rest [more IH]]; cbn [collect].
  - eauto.
  - destruct (file_points_total mode lines) as (pts & -> & _).
    rewrite IH. cbn [bind]. eauto.
Qed.

Lemma weight_rows (lo hi : Q) (temp : list (Q * Q * Q)) :
  lo < hi ->
  exists pts,
    mapM (fun p : Q * Q * Q =>
            let '(x, y, v) := p in
            w <- norm lo hi v ;;
            Ok (y, x, w)) temp = Ok pts /\
    map fst pts = map (fun p => (snd (fst p), fst (fst p))) temp /\
    Forall (fun p => 0 <= snd p <= 1) pts.
Proof.
  intros Hlt. induction temp as [|[[x y] v] r (pts & IH & Hpos & Hw)];
    cbn [mapM].
  - exists []. repeat split; constructor.
  - destruct (norm_unit lo hi v Hlt) as (w & -> & Hw0).
    cbn [bind]. rewrite IH. cbn [bind].
    exists ((y, x, w) :: pts). cbn [map fst snd].
    repeat split; [now rewrite Hpos|]. constructor; assumption.
Qed.

(** X26.  In exact arithmetic, and for files whose field tokens convert to
    finite numbers or not at all (no token spells [nan] or [inf]): for
    percentiles in [[0, 100]] [make_geomag_heat_points] returns, whatever
    the mode, the statistic and the subsampling step; there is one row
    [[lat, lon, weight]] for each collected point [(x, y, v)], with
    [lat = y] and [lon = x], and every weight lies in [[0, 1]]. *)
Theorem heat_points_weights_unit :
  forall (mode : interp_mode) (txt_files : list (list string))
         (q_low q_high : Q),
    0 <= q_low <= 100 -> 0 <= q_high <= 100 ->
    exists temp pts,
      collect py_int py_float sqrt A map_h y_flip prefer_src stat subsample
        mode txt_files = Ok temp /\
      make_geomag_heat_points py_int py_float sqrt A map_h y_flip prefer_src
        stat subsample mode txt_files q_low q_high = Ok pts /\
      map fst pts = map (fun p => (snd (fst p), fst (fst p))) temp /\
      Forall (fun p => 0 <= snd p <= 1) pts.
Proof.
  intros mode txt_files q_low q_high Hl Hh.
  destruct (collect_total mode txt_files) as [temp Htemp].
  exists temp. unfold make_geomag_heat_points. rewrite Htemp. cbn [bind].
  destruct temp as [|p0 r] eqn:E.
  { exists []. repeat split; constructor. }
  rewrite <- E.
  destruct (robust_minmax_ordered (map snd temp) q_low q_high)
    as (lo & hi & -> & Hlt); [rewrite E; discriminate | assumption.. |].
  cbn [bind fst snd].
  destruct (weight_rows lo hi temp Hlt) as (pts & Hpts & Hpos & Hw).
  exists pts. repeat split; assumption.
Qed.

Lemma collect_skips (mode : interp_mode) (before after : list (list string))
    (lines : list string) :
  file_points py_int py_float sqrt A map_h y_flip prefer_src stat subsample
    mode lines = Ok [] ->
  collect py_int py_float sqrt A map_h y_flip prefer_src stat subsample mode
    (before ++ lines :: after)
  = collect py_int py_float sqrt A map_h y_flip prefer_src stat subsample mode
      (before ++ after).
Proof.
  intros Hf. induction before as [|b r IH]; cbn [app collect].
  - rewrite Hf. cbn [bind].
    destruct (collect _ _ _ _ _ _ _ _ _ _ after); reflexivity.
  - rewrite IH. reflexivity.
Qed.

(** X27.  A file with fewer than two waypoints, or with no magnetometer
    sample, adds nothing to the heat map: the result is the one obtained
    without the file, wherever the file stands in the list. *)
Theorem files_without_track_are_ignored :
  forall (mode : interp_mode) (before after : list (list string))
         (lines : list string) (q_low q_high : Q),
    (length (fst (parse_waypoints_and_mags py_int py_float lines prefer_src))
     < 2)%nat \/
    snd (parse_waypoints_and_mags py_int py_float lines prefer_src) = [] ->
    make_geomag_heat_points py_int py_float sqrt A map_h y_flip prefer_src
      stat subsample mode (before ++ lines :: after) q_low q_high
    = make_geomag_heat_points py_int py_float sqrt A map_h y_flip prefer_src
        stat subsample mode (before ++ after) q_low q_high.
Proof.
  intros mode before after lines q_low q_high H.
  unfold make_geomag_heat_points. rewrite collect_skips; [reflexivity|].
  unfold file_points.
  destruct (parse_waypoints_and_mags py_int py_float lines prefer_src)
    as [ws mags].
  cbn [fst snd] in H. destruct H as [H | ->].
  - apply Nat.ltb_lt in H. rewrite H. reflexivity.
  - cbn [length Nat.eqb]. rewrite orb_true_r. reflexivity.
Qed.

(** X28.  In hold mode without subsampling, a file with at least two
    waypoints gives one point for each of its magnetometer samples, also
    for those before the first and after the last waypoint; no other mode
    gives more points. *)
Theorem hold_mode_one_point_per_sample :
  forall lines : list string,
    (2 <= length (fst (parse_waypoints_and_mags py_int py_float lines
                         prefer_src)))%nat ->
    (subsample <= 1)%Z ->
    exists pts_hold,
      file_points py_int py_float sqrt A map_h y_flip prefer_src stat
        subsample Hold lines = Ok pts_hold /\
      length pts_hold
      = length (snd (parse_waypoints_and_mags py_int py_float lines
                       prefer_src)) /\
      forall mode, exists pts,
        file_points py_int py_float sqrt A map_h y_flip prefer_src stat
          subsample mode lines = Ok pts /\
        (length pts <= length pts_hold)%nat.
Proof.
  intros lines Hw Hs.
  assert (Hhold : exists pts_hold,
             file_points py_int py_float sqrt A map_h y_flip prefer_src stat
               subsample Hold lines = Ok pts_hold /\
             length pts_hold
             = length (snd (parse_waypoints_and_mags py_int py_float lines
                              prefer_src))).
  { unfold file_points.
    destruct (parse_waypoints_and_mags py_int py_float lines prefer_src)
      as [ws mags].
    cbn [fst snd] in *.
    destruct ((length ws <? 2)%nat || (length mags =? 0)%nat)%bool eqn:Eg.
    { apply orb_true_iff in Eg. destruct Eg as [Eg | Eg].
      - apply Nat.ltb_lt in Eg. lia.
      - apply Nat.eqb_eq in Eg. exists []. split; [reflexivity|].
        cbn [length]. lia. }
    destruct ws as [|w0 ws']; [cbn [length] in Hw; lia|].
    cbn [interpolate_pos_for_times].
    destruct (pos_loop_hold_some (map wp_t (w0 :: ws')) (map wp_x (w0 :: ws'))
                (map wp_y (w0 :: ws')) (map mag_time mags) 0)
      as (pos & -> & Hlen & Hall).
    cbn [bind]. eexists. split; [reflexivity|].
    assert (Hsub : (1 <? subsample)%Z = false) by (apply Z.ltb_ge; lia).
    rewrite Hsub. rewrite (keep_points_all pos mags Hall).
    rewrite length_combine, Hlen, length_map. lia. }
  destruct Hhold as (pts_hold & Hph & Hlen).
  exists pts_hold. split; [exact Hph|]. split; [exact Hlen|].
  intros mode. destruct (file_points_total mode lines) as (pts & Hp & Hle).
  exists pts. split; [exact Hp | lia].
Qed.

End HeatPointsExtras.

Section HeatPointsWitnesses.

Import GeomagHeatmap GeomagHeatPoints Scenarios.

Local Open Scope string_scope.

Lemma heat_points_weights_unit_witness :
  exists temp pts,
    collect dec_int dec_float (fun q => q) None 100 true Cal "bx" 1 Linear
      [track_file] = Ok temp /\
    make_geomag_heat_points dec_int dec_float (fun q => q) None 100 true Cal
      "bx" 1 Linear [track_file] 5 95 = Ok pts /\
    map fst pts = map (fun p => (snd (fst p), fst (fst p))) temp /\
    Forall (fun p => 0 <= snd p <= 1) pts.
Proof.
  apply (heat_points_weights_unit dec_int dec_float (fun q => q) None 100 true
           Cal "bx" 1 Linear [track_file] 5 95); split; vm_compute; discriminate.
Defined.

Lemma files_without_track_are_ignored_witness :
  make_geomag_heat_points dec_int dec_float (fun q => q) None 100 true Cal
    "bx" 1 Hold ([track_file] ++ trackless_file :: [track_file]) 5 95
  = make_geomag_heat_points dec_int dec_float (fun q => q) None 100 true Cal
      "bx" 1 Hold ([track_file] ++ [track_file]) 5 95.
Proof.
  apply (files_without_track_are_ignored dec_int dec_float (fun q => q) None
           100 true Cal "bx" 1 Hold [track_file] [track_file] trackless_file
           5 95).
  left. vm_compute. lia.
Defined.

Lemma hold_mode_one_point_per_sample_witness :
  exists pts_hold,
    file_points dec_int dec_float (fun q => q) None 100 true Cal "bx" 1 Hold
      track_file = Ok pts_hold /\
    length pts_hold
    = length (snd (parse_waypoints_and_mags dec_int dec_float track_file Cal)) /\
    forall mode, exists pts,
      file_points dec_int dec_float (fun q => q) None 100 true Cal "bx" 1 mode
        track_file = Ok pts /\
      (length pts <= length pts_hold)%nat.
Proof.
  apply (hold_mode_one_point_per_sample dec_int dec_float (fun q => q) None
           100 true Cal "bx" 1 track_file).
  - vm_compute. lia.
  - lia.
Defined.

End HeatPointsWitnesses.
